(** * voice_chess: the client side of the turn pipeline

    A shallow embedding of the TypeScript client of the voice-chess
    repository: the wire types ([types.ts]), the streaming consumer
    [submitTurnStream] and the plain requests ([api/client.ts]), the
    recorder hook ([hooks/useAudioRecorder.ts]), the turn controller [App]
    ([App.tsx]) and the board ([components/Chessboard.tsx]).

    Conventions of the embedding.
    - A JavaScript string is a Rocq [string] holding its UTF-8 bytes.  Every
      needle the client searches for (the line feed, the frame marker, the
      hash sign, the word Stalemate) is ASCII, and an ASCII byte never
      occurs inside a multi-byte UTF-8 sequence, so splitting, prefix,
      suffix and substring tests agree with the ones on UTF-16 code units.
    - An [async] function is run to completion; the value each [await]
      settles with is an input of the model (the network, the microphone).
    - A thrown exception is the [inl] of a sum; [try], [catch] and
      [finally] are combinators over it.
    - Calls that leave the function (the timer, the network, the reader, the
      caller's handler, the console) are recorded in order in a trace. *)

From Stdlib Require Import String Ascii List Bool Arith PeanoNat NArith Lia.
Import ListNotations.

Local Open Scope list_scope.
Local Open Scope string_scope.
Local Open Scope nat_scope.

(** ** ECMAScript strings *)

Module JS.

(** The double quote, written through its code so that no literal of this
    file has to escape it. *)
Definition dquote_char : ascii := ascii_of_nat 34.
Definition dquote : string := String dquote_char EmptyString.

Definition LF : ascii := ascii_of_nat 10.

(** [s.split(sep)] for a one-character separator: the pieces between the
    separators, in order; an empty string gives one empty piece. *)
Fixpoint split (sep : ascii) (s : string) : list string :=
  match s with
  | EmptyString => [EmptyString]
  | String c r =>
      if Ascii.eqb c sep then EmptyString :: split sep r
      else match split sep r with
           | l :: ls => String c l :: ls
           | [] => [String c EmptyString]
           end
  end.

(** [s.startsWith(p)] *)
Fixpoint startsWith (p s : string) : bool :=
  match p with
  | EmptyString => true
  | String a p' =>
      match s with
      | String b s' => Ascii.eqb a b && startsWith p' s'
      | EmptyString => false
      end
  end.

(** [s.slice(n)] for [0 <= n]: [s] without its first [n] characters. *)
Fixpoint slice (n : nat) (s : string) : string :=
  match n, s with
  | O, _ => s
  | S _, EmptyString => EmptyString
  | S k, String _ r => slice k r
  end.

(** [s.endsWith(p)] *)
Definition endsWith (p s : string) : bool :=
  (String.length p <=? String.length s)
  && String.eqb (slice (String.length s - String.length p) s) p.

(** [s.includes(p)] *)
Fixpoint includes (p s : string) : bool :=
  startsWith p s
  || match s with
     | EmptyString => false
     | String _ r => includes p r
     end.

(** Truthiness of a value of type [string | undefined]: [undefined] and
    the empty string are falsy. *)
Definition truthy (v : option string) : bool :=
  match v with
  | Some s => negb (String.eqb s EmptyString)
  | None => false
  end.

(** The value a truthiness test lets through: [v] itself when truthy. *)
Definition truthy_value (v : option string) : option string :=
  if truthy v then v else None.

(** [v || dflt] for [v : string | undefined]. *)
Definition or_else (v : option string) (dflt : string) : string :=
  match v with
  | Some s => if String.eqb s EmptyString then dflt else s
  | None => dflt
  end.

(** A template literal's rendering of a [string | undefined] hole. *)
Definition interpolate (v : option string) : string :=
  match v with
  | Some s => s
  | None => "undefined"
  end.

(** Writes a text with single quotes standing for double quotes, for the
    JSON examples of this file. *)
Fixpoint q (s : string) : string :=
  match s with
  | EmptyString => EmptyString
  | String c r => String (if Ascii.eqb c "'"%char then dquote_char else c) (q r)
  end.

(** An exception value: [name] and [message] of an [Error] (or of a
    [DOMException], which inherits from [Error]).  Nothing else is thrown
    in this client, so every [err instanceof Error] test holds. *)
Record Exn : Type := mkExn { name : string; message : string }.

(** [new Error(msg)] *)
Definition Error (msg : string) : Exn := mkExn "Error" msg.

End JS.

(** ** JSON texts

    [JSON.parse] is a built-in of the platform.  The client needs it at the
    type [StreamUpdate] only; the general results below hold for any parser
    (it is a parameter of the section they live in).  The concrete parser of
    this module reads the JSON grammar of ECMA-404 and is used to run the
    client on concrete server output. *)

Module JSON.

#[local] Unset Elimination Schemes.

Inductive json : Type :=
| Null
| Bool (b : bool)
| Number (lexeme : string)
| Str (s : string)
| Array (l : list json)
| Object (members : list (string * json)).

#[local] Set Elimination Schemes.

Definition is_ws (c : ascii) : bool :=
  let n := nat_of_ascii c in
  (n =? 32) || (n =? 9) || (n =? 10) || (n =? 13).

Fixpoint skip_ws (s : string) : string :=
  match s with
  | String c r => if is_ws c then skip_ws r else s
  | EmptyString => s
  end.

Definition is_digit (c : ascii) : bool :=
  let n := nat_of_ascii c in (48 <=? n) && (n <=? 57).

(** The longest prefix of digits, and what follows it. *)
Fixpoint digits (s : string) : string * string :=
  match s with
  | String c r =>
      if is_digit c then let '(d, t) := digits r in (String c d, t)
      else (EmptyString, s)
  | EmptyString => (EmptyString, s)
  end.

(** [expect lit s]: what follows [lit] at the head of [s]. *)
Definition expect (lit s : string) : option string :=
  if JS.startsWith lit s then Some (JS.slice (String.length lit) s) else None.

(** number = [-] int [frac] [exp], returned as its lexeme. *)
Definition parse_int (s : string) : option (string * string) :=
  match s with
  | String "0" r => Some ("0", r)
  | _ => match digits s with
         | (EmptyString, _) => None
         | (d, r) => Some (d, r)
         end
  end.

Definition parse_frac (s : string) : option (string * string) :=
  match s with
  | String "." r =>
      match digits r with
      | (EmptyString, _) => None
      | (d, t) => Some (String "." d, t)
      end
  | _ => Some (EmptyString, s)
  end.

Definition parse_exp (s : string) : option (string * string) :=
  match s with
  | String c r =>
      if Ascii.eqb c "e" || Ascii.eqb c "E" then
        let '(sign, r1) :=
          match r with
          | String "+" t => ("+", t)
          | String "-" t => ("-", t)
          | _ => (EmptyString, r)
          end in
        match digits r1 with
        | (EmptyString, _) => None
        | (d, t) => Some (String c (sign ++ d), t)
        end
      else Some (EmptyString, s)
  | EmptyString => Some (EmptyString, s)
  end.

Definition parse_number (s : string) : option (string * string) :=
  let '(sign, r0) :=
    match s with
    | String "-" t => ("-", t)
    | _ => (EmptyString, s)
    end in
  match parse_int r0 with
  | None => None
  | Some (i, r1) =>
      match parse_frac r1 with
      | None => None
      | Some (f, r2) =>
          match parse_exp r2 with
          | None => None
          | Some (e, r3) => Some (sign ++ i ++ f ++ e, r3)
          end
      end
  end.

Definition hex_value (c : ascii) : option nat :=
  let n := nat_of_ascii c in
  if (48 <=? n) && (n <=? 57) then Some (n - 48)
  else if (65 <=? n) && (n <=? 70) then Some (n - 55)
  else if (97 <=? n) && (n <=? 102) then Some (n - 87)
  else None.

(** The UTF-8 bytes of the code unit [n < 65536].  The two halves of a
    surrogate pair are encoded one by one. *)
Definition utf8 (n : nat) : string :=
  if n <? 128 then String (ascii_of_nat n) EmptyString
  else if n <? 2048 then
    String (ascii_of_nat (192 + n / 64))
      (String (ascii_of_nat (128 + n mod 64)) EmptyString)
  else
    String (ascii_of_nat (224 + n / 4096))
      (String (ascii_of_nat (128 + (n / 64) mod 64))
         (String (ascii_of_nat (128 + n mod 64)) EmptyString)).

Definition simple_escape (c : ascii) : option ascii :=
  let n := nat_of_ascii c in
  if n =? 34 then Some c                      (* quotation mark *)
  else if n =? 92 then Some c                 (* reverse solidus *)
  else if n =? 47 then Some c                 (* solidus *)
  else if n =? 98 then Some (ascii_of_nat 8)  (* b *)
  else if n =? 102 then Some (ascii_of_nat 12) (* f *)
  else if n =? 110 then Some (ascii_of_nat 10) (* n *)
  else if n =? 114 then Some (ascii_of_nat 13) (* r *)
  else if n =? 116 then Some (ascii_of_nat 9)  (* t *)
  else None.

(** The characters of a string after its opening quote, up to the closing
    one; control characters are refused, escapes are decoded. *)
Fixpoint parse_chars (s : string) : option (string * string) :=
  match s with
  | EmptyString => None
  | String c r =>
      if nat_of_ascii c =? 34 then Some (EmptyString, r)
      else if nat_of_ascii c <? 32 then None
      else if nat_of_ascii c =? 92 then
        match r with
        | EmptyString => None
        | String e r1 =>
            match simple_escape e with
            | Some ch =>
                match parse_chars r1 with
                | Some (t, rest) => Some (String ch t, rest)
                | None => None
                end
            | None =>
                if nat_of_ascii e =? 117 then
                  match r1 with
                  | String h1 (String h2 (String h3 (String h4 r2))) =>
                      match hex_value h1, hex_value h2, hex_value h3, hex_value h4 with
                      | Some a, Some b, Some c', Some d =>
                          match parse_chars r2 with
                          | Some (t, rest) =>
                              Some (utf8 (((a * 16 + b) * 16 + c') * 16 + d) ++ t, rest)
                          | None => None
                          end
                      | _, _, _, _ => None
                      end
                  | _ => None
                  end
                else None
            end
        end
      else
        match parse_chars r with
        | Some (t, rest) => Some (String c t, rest)
        | None => None
        end
  end.

Fixpoint parse_value (fuel : nat) (s : string) {struct fuel} : option (json * string) :=
  match fuel with
  | O => None
  | S k =>
      match skip_ws s with
      | EmptyString => None
      | String c r =>
          let n := nat_of_ascii c in
          if n =? 123 then                     (* left brace *)
            match skip_ws r with
            | String "}" r1 => Some (Object [], r1)
            | _ =>
                match parse_members k r with
                | Some (ms, r1) => Some (Object ms, r1)
                | None => None
                end
            end
          else if n =? 91 then                 (* left bracket *)
            match skip_ws r with
            | String "]" r1 => Some (Array [], r1)
            | _ =>
                match parse_elements k r with
                | Some (vs, r1) => Some (Array vs, r1)
                | None => None
                end
            end
          else if n =? 34 then
            match parse_chars r with
            | Some (t, r1) => Some (Str t, r1)
            | None => None
            end
          else if n =? 116 then option_map (pair (Bool true)) (expect "rue" r)
          else if n =? 102 then option_map (pair (Bool false)) (expect "alse" r)
          else if n =? 110 then option_map (pair Null) (expect "ull" r)
          else
            match parse_number (String c r) with
            | Some (lx, r1) => Some (Number lx, r1)
            | None => None
            end
      end
  end

with parse_elements (fuel : nat) (s : string) {struct fuel} : option (list json * string) :=
  match fuel with
  | O => None
  | S k =>
      match parse_value k s with
      | None => None
      | Some (v, r) =>
          match skip_ws r with
          | String "," r1 =>
              match parse_elements k r1 with
              | Some (vs, r2) => Some (v :: vs, r2)
              | None => None
              end
          | String "]" r1 => Some ([v], r1)
          | _ => None
          end
      end
  end

with parse_members (fuel : nat) (s : string) {struct fuel}
  : option (list (string * json) * string) :=
  match fuel with
  | O => None
  | S k =>
      match skip_ws s with
      | String c r =>
          if nat_of_ascii c =? 34 then
            match parse_chars r with
            | None => None
            | Some (key, r1) =>
                match skip_ws r1 with
                | String ":" r2 =>
                    match parse_value k r2 with
                    | None => None
                    | Some (v, r3) =>
                        match skip_ws r3 with
                        | String "," r4 =>
                            match parse_members k r4 with
                            | Some (ms, r5) => Some ((key, v) :: ms, r5)
                            | None => None
                            end
                        | String "}" r4 => Some ([(key, v)], r4)
                        | _ => None
                        end
                    end
                | _ => None
                end
            end
          else None
      | EmptyString => None
      end
  end.

(** [JSON.parse(text)]; [None] stands for the [SyntaxError] it throws. *)
Definition parse (text : string) : option json :=
  match parse_value (2 * String.length text + 2) text with
  | Some (v, r) =>
      match skip_ws r with
      | EmptyString => Some v
      | String _ _ => None
      end
  | None => None
  end.

(** [o[key]] on a parsed object: the last member of that name wins. *)
Fixpoint get (key : string) (members : list (string * json)) : option json :=
  match members with
  | [] => None
  | (k, v) :: ms =>
      match get key ms with
      | Some w => Some w
      | None => if String.eqb k key then Some v else None
      end
  end.

End JSON.


(** ** Values read from a JSON body

    What [response.json()] hands over.  A number is held as the text
    [String] gives for it: ["0"] for zero and for its negative, never the
    lexeme of the body. *)

Module Value.

#[local] Unset Elimination Schemes.

Inductive t : Type :=
| Null
| Bool (b : bool)
| Number (shown : string)
| Str (s : string)
| Array (elements : list t)
| Object (members : list (string * t)).

#[local] Set Elimination Schemes.

(** [o[key]] on an object: the last member of that name wins. *)
Fixpoint get (key : string) (members : list (string * t)) : option t :=
  match members with
  | [] => None
  | (k, v) :: ms =>
      match get key ms with
      | Some w => Some w
      | None => if String.eqb k key then Some v else None
      end
  end.

(** [v?.key], [None] for [undefined]: only an object has members; on
    [null] the chain stops, on a string, a number, a boolean or an array
    the name is not found. *)
Definition property (key : string) (v : t) : option t :=
  match v with
  | Object members => get key members
  | _ => None
  end.

(** [ToBoolean]: [undefined], [null], [false], zero and the empty string
    are falsy; every array and every object is truthy. *)
Definition ToBoolean (v : option t) : bool :=
  match v with
  | None | Some Null => false
  | Some (Bool b) => b
  | Some (Number shown) => negb (String.eqb shown "0")
  | Some (Str s) => negb (String.eqb s "")
  | Some (Array _) | Some (Object _) => true
  end.

(** [a || b] *)
Definition or_else (a : option t) (b : t) : t :=
  match a with
  | Some v => if ToBoolean a then v else b
  | None => b
  end.

(** What [ToString] throws on an object that cannot be made a string; the
    wording is the engine's. *)
Definition TypeError_to_primitive : JS.Exn :=
  JS.mkExn "TypeError" "Cannot convert object to primitive value".

(** [ToString], [None] when it throws.  An array is its elements joined
    by commas, [null] among them giving nothing.  An object read from JSON
    is [[object Object]], unless it has a member named [toString]: that
    member hides the method every object inherits and cannot be called,
    and the [valueOf] left gives no primitive. *)
Fixpoint ToString (v : t) : option string :=
  match v with
  | Null => Some "null"
  | Bool true => Some "true"
  | Bool false => Some "false"
  | Number shown => Some shown
  | Str s => Some s
  | Array elements =>
      let element (x : t) : option string :=
        match x with
        | Null => Some EmptyString
        | _ => ToString x
        end in
      (fix join (l : list t) : option string :=
         match l with
         | [] => Some EmptyString
         | [x] => element x
         | x :: rest =>
             match element x, join rest with
             | Some a, Some b => Some (a ++ "," ++ b)
             | _, _ => None
             end
         end) elements
  | Object members =>
      match get "toString" members with
      | Some _ => None
      | None => Some "[object Object]"
      end
  end.

End Value.

(** ** Wire types ([types.ts]) *)

Inductive Actor : Type := player | engine.

Module MoveRecord.
Record t : Type := mk {
  ply : nat;
  actor : Actor;
  uci : string;
  san : string;
  transcript : option string;
  timestamp : string
}.
End MoveRecord.

Module SessionState.
Record t : Type := mk {
  session_id : string;
  fen : string;
  moves : list MoveRecord.t
}.
End SessionState.

(** The [{ uci: string; san: string }] of a move. *)
Module Move.
Record t : Type := mk { uci : string; san : string }.
End Move.

(** [TurnResponse].  [submitTurnStream] fills [transcript], [user_move] and
    [engine_move] through non-null assertions ([data.transcript!]), which
    TypeScript erases: a field the event lacks is [undefined] in the result.
    The three fields are therefore optional here. *)
Module TurnResponse.
Record t : Type := mk {
  transcript : option string;
  user_move : option Move.t;
  engine_move : option Move.t;
  fen : string;
  moves : list MoveRecord.t
}.
End TurnResponse.

(** ** Stream updates ([api/client.ts]) *)

Module Status.

Inductive t : Type :=
| transcribing | transcribed | interpreting | player_moved
| engine_thinking | complete | error.

(** The enumerated set, in the order of the interface. *)
Definition all : list t :=
  [transcribing; transcribed; interpreting; player_moved;
   engine_thinking; complete; error].

(** [a === b] on status tags. *)
Definition eqb (a b : t) : bool :=
  match a, b with
  | transcribing, transcribing | transcribed, transcribed
  | interpreting, interpreting | player_moved, player_moved
  | engine_thinking, engine_thinking | complete, complete
  | error, error => true
  | _, _ => false
  end.

(** The tag as it is written on the wire. *)
Definition of_string (s : string) : option t :=
  if String.eqb s "transcribing" then Some transcribing
  else if String.eqb s "transcribed" then Some transcribed
  else if String.eqb s "interpreting" then Some interpreting
  else if String.eqb s "player_moved" then Some player_moved
  else if String.eqb s "engine_thinking" then Some engine_thinking
  else if String.eqb s "complete" then Some complete
  else if String.eqb s "error" then Some error
  else None.

End Status.

Module StreamUpdate.
Record t : Type := mk {
  status : Status.t;
  transcript : option string;
  move : option Move.t;
  user_move : option Move.t;
  engine_move : option Move.t;
  fen : option string;
  error : option string
}.
End StreamUpdate.

(** [JSON.parse(text) as StreamUpdate], for the texts whose value has the
    declared type: an object whose [status] is one of the seven tags and
    whose other members, when present, are strings or [{uci, san}] pairs of
    strings.  Members the interface does not name are ignored.  A text
    that is not JSON, or whose value is not of the declared type, gives
    [None]; the cast itself checks nothing, so values outside the interface
    are outside this model. *)
Module Wire.

Import JSON.

(** An optional member of type string: [Some None] when absent. *)
Definition opt_string (key : string) (ms : list (string * json))
  : option (option string) :=
  match get key ms with
  | None => Some None
  | Some (Str s) => Some (Some s)
  | Some _ => None
  end.

Definition move_text (v : json) : option Move.t :=
  match v with
  | Object ms =>
      match get "uci" ms, get "san" ms with
      | Some (Str u), Some (Str s) => Some (Move.mk u s)
      | _, _ => None
      end
  | _ => None
  end.

Definition opt_move (key : string) (ms : list (string * json))
  : option (option Move.t) :=
  match get key ms with
  | None => Some None
  | Some v => option_map Some (move_text v)
  end.

Definition as_StreamUpdate (v : json) : option StreamUpdate.t :=
  match v with
  | Object ms =>
      match get "status" ms with
      | Some (Str tag) =>
          match Status.of_string tag,
                opt_string "transcript" ms, opt_move "move" ms,
                opt_move "user_move" ms, opt_move "engine_move" ms,
                opt_string "fen" ms, opt_string "error" ms with
          | Some st, Some t, Some m, Some um, Some em, Some f, Some e =>
              Some (StreamUpdate.mk st t m um em f e)
          | _, _, _, _, _, _, _ => None
          end
      | _ => None
      end
  | _ => None
  end.

Definition parseStreamUpdate (text : string) : option StreamUpdate.t :=
  match parse text with
  | Some v => as_StreamUpdate v
  | None => None
  end.

End Wire.

(** ** Effects and exceptions *)

(** A recording: its bytes, which the client never looks at. *)
Definition Blob : Type := string.

(** What a run does to the world outside the function, in order. *)
Inductive Effect : Type :=
| SetTimeout (ms : N)        (* setTimeout(() => controller.abort(), ms) *)
| ClearTimeout               (* clearTimeout(timeoutId) *)
| Fetch (url : string) (audio : Blob) (* fetch(url, { method, body, signal }) *)
| ReadJson                   (* response.json(), on a response that is not ok *)
| GetReader                  (* response.body.getReader(): the body is locked *)
| Read                       (* reader.read() *)
| OnUpdate (data : StreamUpdate.t)        (* onUpdate(data) *)
| ConsoleError (line : string) (e : JS.Exn) (* console.error(..., line, e) *)
| ReleaseLock                (* reader.releaseLock() *)
| RecorderStart              (* start() of the recorder hook *)
| RecorderStop               (* stop() of the recorder hook *)
| GetSession (id : string)   (* getSession(id) *)
| CreateSession (skill : nat) (* createSession(skillLevel) *)
| Speak (id text : string).  (* speakMove(id, text) *)

(** A computation that logs effects and either throws or returns. *)
Definition M (A : Type) : Type := list Effect * (JS.Exn + A).

Definition ret {A} (a : A) : M A := ([], inr a).
Definition throw {A} (e : JS.Exn) : M A := ([], inl e).
Definition emit (ef : Effect) : M unit := ([ef], inr tt).

Definition bind {A B} (m : M A) (f : A -> M B) : M B :=
  match m with
  | (t, inr a) => let '(t', r) := f a in ((t ++ t')%list, r)
  | (t, inl e) => (t, inl e)
  end.

(** [try { m } catch (e) { h e }] *)
Definition try_catch {A} (m : M A) (h : JS.Exn -> M A) : M A :=
  match m with
  | (t, inl e) => let '(t', r) := h e in ((t ++ t')%list, r)
  | (t, inr a) => (t, inr a)
  end.

(** [try { m } finally { fin }]: [fin] runs on every exit of [m]; the
    outcome is that of [m] unless [fin] itself throws. *)
Definition try_finally {A} (m : M A) (fin : M unit) : M A :=
  let '(t, r) := m in
  match fin with
  | (t', inr _) => ((t ++ t')%list, r)
  | (t', inl e) => ((t ++ t')%list, inl e)
  end.

Declare Scope js_scope.
Delimit Scope js_scope with js.
Notation "x <- m ;; k" := (bind m (fun x => k))
  (at level 61, m at next level, right associativity) : js_scope.
Notation "m ;; k" := (bind m (fun _ => k))
  (at level 61, right associativity) : js_scope.
Local Open Scope js_scope.

Definition trace {A} (m : M A) : list Effect := fst m.
Definition outcome {A} (m : M A) : JS.Exn + A := snd m.

(** ** The network, as the client sees it *)

(** How the response body ends: [reader.read()] reports [done], or rejects
    (a network error, or the [AbortError] of an aborted request). *)
Inductive StreamEnd : Type :=
| Done
| Rejects (e : JS.Exn).

(** A response body: the texts [decoder.decode(value)] gives for the
    successive chunks, then the end. *)
Record Body : Type := mkBody { chunks : list string; ending : StreamEnd }.

(** A response: [json] is what [response.json()] settles with, should the
    client call it; it rejects on a body that is not JSON. *)
Record Response : Type := mkResponse {
  ok : bool;
  statusText : string;
  json : JS.Exn + Value.t;
  body : option Body
}.

(** What [await fetch(...)] settles with. *)
Definition FetchOutcome : Type := (JS.Exn + Response)%type.

(** The [DOMException] a request aborted through its signal rejects with. *)
Definition AbortError : JS.Exn := JS.mkExn "AbortError" "The user aborted a request.".

(** ** [submitTurnStream] ([api/client.ts])

    [submitTurnStream sessionId audio net] is the call
    [submitTurnStream(sessionId, audio, onUpdate)] when the request settles
    as [net] says.  A call [onUpdate(data)] is logged as [OnUpdate data];
    the caller runs its handler over the log ([App.run_handler]).  The
    handler is taken to return normally, as the one of the repository
    does. *)

Definition frame_marker : string := "data: ".
Definition missing_result_message : string := "No final result received from server".
Definition timeout_message : string :=
  "Request timed out. Please try again with a shorter recording.".
Definition timeout_ms : N := 15000%N.

(** [data.status === 'complete' && data.fen]: the position of a terminal
    success event, [None] for every other event. *)
Definition final_position (data : StreamUpdate.t) : option string :=
  if Status.eqb (StreamUpdate.status data) Status.complete
  then JS.truthy_value (StreamUpdate.fen data)
  else None.

(** Lines 77 to 79: what the call throws on a response that is not ok.
    The message is the [detail] member of the body when it is truthy, the
    status text otherwise (a body that is not JSON counts as [{}]), made a
    string by the [Error] constructor, which throws itself when it
    cannot. *)
Definition refusal (response : Response) : JS.Exn :=
  let errorData :=
    match json response with
    | inr v => v
    | inl _ => Value.Object []
    end in
  let errorMessage :=
    Value.or_else (Value.property "detail" errorData)
      (Value.Str (statusText response)) in
  match Value.ToString errorMessage with
  | Some text => JS.Error text
  | None => Value.TypeError_to_primitive
  end.

Section Client.

Variable API_BASE_URL : string.

(** [JSON.parse(text) as StreamUpdate]; [None] when it throws. *)
Variable JSON_parse : string -> option StreamUpdate.t.

(** What [JSON.parse] throws; the wording of the message is the
    engine's and is only ever logged. *)
Definition SyntaxError : JS.Exn := JS.mkExn "SyntaxError" "Unexpected token in JSON".

(** The body of the [try] around one frame (lines 101 to 114). *)
Definition try_frame (line : string) (finalResult : option TurnResponse.t)
  : M (option TurnResponse.t) :=
  data <- match JSON_parse (JS.slice 6 line) with
          | Some d => ret d
          | None => throw SyntaxError
          end ;;
  emit (OnUpdate data) ;;
  match final_position data with
  | Some fen =>
      ret (Some (TurnResponse.mk
                   (StreamUpdate.transcript data)
                   (StreamUpdate.user_move data)
                   (StreamUpdate.engine_move data)
                   fen
                   []))
  | None =>
      if Status.eqb (StreamUpdate.status data) Status.error
         || JS.truthy (StreamUpdate.error data)
      then throw (JS.Error (JS.or_else (StreamUpdate.error data) "Unknown error"))
      else ret finalResult
  end.

(** One iteration of [for (const line of lines)] (lines 99 to 118): the
    [catch] logs whatever the [try] threw and the loop goes on. *)
Definition for_line (line : string) (finalResult : option TurnResponse.t)
  : M (option TurnResponse.t) :=
  if JS.startsWith frame_marker line then
    try_catch (try_frame line finalResult)
      (fun parseError => emit (ConsoleError line parseError) ;; ret finalResult)
  else ret finalResult.

Fixpoint for_lines (lines : list string) (finalResult : option TurnResponse.t)
  : M (option TurnResponse.t) :=
  match lines with
  | [] => ret finalResult
  | line :: rest =>
      finalResult' <- for_line line finalResult ;;
      for_lines rest finalResult'
  end.

(** [while (true)] (lines 91 to 120), by recursion on the chunks still to
    come: each turn awaits [reader.read()]. *)
Fixpoint read_loop (pending : list string) (ending : StreamEnd)
  (finalResult : option TurnResponse.t) : M (option TurnResponse.t) :=
  match pending with
  | chunk :: rest =>
      emit Read ;;
      finalResult' <- for_lines (JS.split JS.LF chunk) finalResult ;;
      read_loop rest ending finalResult'
  | [] =>
      emit Read ;;
      match ending with
      | Done => ret finalResult
      | Rejects e => throw e
      end
  end.

(** The address of the request, a template over the base and the id. *)
Definition turn_stream_url (sessionId : string) : string :=
  API_BASE_URL ++ "/sessions/" ++ sessionId ++ "/turn-stream".

Definition submitTurnStream (sessionId : string) (audio : Blob)
  (net : FetchOutcome) : M TurnResponse.t :=
  emit (SetTimeout timeout_ms) ;;
  try_finally
    (try_catch
       (emit (Fetch (turn_stream_url sessionId) audio) ;;
        response <- match net with
                    | inr r => ret r
                    | inl e => throw e
                    end ;;
        if negb (ok response) then
          emit ReadJson ;;
          throw (refusal response)
        else
          match body response with
          | None => throw (JS.Error "No response body")
          | Some b =>
              emit GetReader ;;
              finalResult <- try_finally
                               (read_loop (chunks b) (ending b) None)
                               (emit ReleaseLock) ;;
              match finalResult with
              | None => throw (JS.Error missing_result_message)
              | Some r => ret r
              end
          end)
       (fun e =>
          if String.eqb (JS.name e) "AbortError"
          then throw (JS.Error timeout_message)
          else throw e))
    (emit ClearTimeout).

(** *** What the loop amounts to

    The definitions below restate the loop as functions of the chunks; the
    lemmas of the second part show the code computes them. *)

(** The update a line carries, if it is a frame that parses. *)
Definition line_update (line : string) : option StreamUpdate.t :=
  if JS.startsWith frame_marker line then JSON_parse (JS.slice 6 line) else None.

Definition line_updates (lines : list string) : list StreamUpdate.t :=
  flat_map (fun line => match line_update line with
                        | Some u => [u]
                        | None => []
                        end) lines.

(** The updates of a stream chunked as [pending], in arrival order. *)
Definition dispatched (pending : list string) : list StreamUpdate.t :=
  flat_map (fun chunk => line_updates (JS.split JS.LF chunk)) pending.

End Client.

(** The Turn Result lines 105 to 111 build from a terminal success event. *)
Definition synthesize (data : StreamUpdate.t) : option TurnResponse.t :=
  match final_position data with
  | Some fen =>
      Some (TurnResponse.mk
              (StreamUpdate.transcript data)
              (StreamUpdate.user_move data)
              (StreamUpdate.engine_move data)
              fen
              [])
  | None => None
  end.

(** [finalResult] after one more update. *)
Definition latest (finalResult : option TurnResponse.t) (data : StreamUpdate.t)
  : option TurnResponse.t :=
  match synthesize data with
  | Some r => Some r
  | None => finalResult
  end.

(** An event with status complete that carries a position. *)
Definition terminal_success (data : StreamUpdate.t) : bool :=
  Status.eqb (StreamUpdate.status data) Status.complete
  && JS.truthy (StreamUpdate.fen data).

(** Whether the reader holds its lock on the body after a trace. *)
Definition reader_locked (t : list Effect) : bool :=
  fold_left (fun held ef =>
               match ef with
               | GetReader => true
               | ReleaseLock => false
               | _ => held
               end) t false.

(** The effects of the reading loop itself. *)
Definition reading_effect (ef : Effect) : bool :=
  match ef with
  | Read | OnUpdate _ | ConsoleError _ _ => true
  | _ => false
  end.

(** *** Frames on the wire

    A frame is the marker, a payload without line feed, and one line feed or
    more (server-sent events end a frame with a blank line, that is two). *)
Record Frame : Type := mkFrame { payload : string; blank_lines : nat }.

Fixpoint line_feeds (n : nat) : string :=
  match n with
  | O => EmptyString
  | S k => String JS.LF (line_feeds k)
  end.

Definition frame_text (f : Frame) : string :=
  frame_marker ++ payload f ++ String JS.LF (line_feeds (blank_lines f)).

(** The bytes of a sequence of frames. *)
Fixpoint wire (fs : list Frame) : string :=
  match fs with
  | [] => EmptyString
  | f :: rest => frame_text f ++ wire rest
  end.

(** The bytes of a sequence of chunks. *)
Fixpoint join (pending : list string) : string :=
  match pending with
  | [] => EmptyString
  | chunk :: rest => chunk ++ join rest
  end.

Fixpoint no_LF (s : string) : bool :=
  match s with
  | EmptyString => true
  | String c r => negb (Ascii.eqb c JS.LF) && no_LF r
  end.

(** A frame the server may push: one line, holding an update. *)
Definition well_framed (parse : string -> option StreamUpdate.t) (f : Frame) : bool :=
  no_LF (payload f)
  && match parse (payload f) with Some _ => true | None => false end.

(** The lines of a frame: the marked payload, then its blank lines. *)
Definition frame_lines (f : Frame) : list string :=
  (frame_marker ++ payload f) :: repeat EmptyString (blank_lines f).

(** The response of a request that went through, streaming [pending]. *)
Definition streaming (pending : list string) (ending : StreamEnd) : FetchOutcome :=
  inr (mkResponse true "OK" (inl SyntaxError) (Some (mkBody pending ending))).

(** The updates a run handed to [onUpdate], in order. *)
Fixpoint updates (t : list Effect) : list StreamUpdate.t :=
  match t with
  | [] => []
  | OnUpdate u :: r => u :: updates r
  | _ :: r => updates r
  end.

(** The reads and the dispatches of a trace, the log entries left out. *)
Definition reads_and_updates (t : list Effect) : list Effect :=
  filter (fun ef => match ef with Read | OnUpdate _ => true | _ => false end) t.

(** The updates the frames [fs] hold. *)
Definition frame_updates (parse : string -> option StreamUpdate.t) (fs : list Frame)
  : list StreamUpdate.t :=
  flat_map (fun f => match parse (payload f) with Some u => [u] | None => [] end) fs.

(** ** The turn controller ([App.tsx]) and the recorder hook

    The state is that of the [useState] cells the handlers touch, together
    with [isRecording] and [error] of [useAudioRecorder], and the value of
    the latter at the last render, which the effect of lines 85-89 compares
    it with before it copies it into [error].  The display toggles
    ([showMoves], [showPieces], [showCoordinates], [isMovesCollapsed]) are
    read and written by no handler below and are left out.  The refs the
    keyboard handlers read ([isRecordingRef] and the like) are refreshed
    after every render; they are read here as the state itself. *)

Module App.

Record State : Type := mkState {
  session : option SessionState.t;
  status : option string;
  isLoading : bool;
  isSubmitting : bool;
  error : option string;
  skillLevel : nat;
  gameEnded : bool;
  isRecording : bool;
  recorderError : option string;         (* the [error] of the hook (line 55) *)
  renderedRecorderError : option string  (* [recorderError] at the last render *)
}.

Definition setSession v (s : State) : State :=
  mkState v (status s) (isLoading s) (isSubmitting s) (error s)
    (skillLevel s) (gameEnded s) (isRecording s)
    (recorderError s) (renderedRecorderError s).
Definition setStatus v (s : State) : State :=
  mkState (session s) v (isLoading s) (isSubmitting s) (error s)
    (skillLevel s) (gameEnded s) (isRecording s)
    (recorderError s) (renderedRecorderError s).
Definition setIsLoading v (s : State) : State :=
  mkState (session s) (status s) v (isSubmitting s) (error s)
    (skillLevel s) (gameEnded s) (isRecording s)
    (recorderError s) (renderedRecorderError s).
Definition setIsSubmitting v (s : State) : State :=
  mkState (session s) (status s) (isLoading s) v (error s)
    (skillLevel s) (gameEnded s) (isRecording s)
    (recorderError s) (renderedRecorderError s).
Definition setError v (s : State) : State :=
  mkState (session s) (status s) (isLoading s) (isSubmitting s) v
    (skillLevel s) (gameEnded s) (isRecording s)
    (recorderError s) (renderedRecorderError s).
Definition setSkillLevel v (s : State) : State :=
  mkState (session s) (status s) (isLoading s) (isSubmitting s) (error s)
    v (gameEnded s) (isRecording s)
    (recorderError s) (renderedRecorderError s).
Definition setGameEnded v (s : State) : State :=
  mkState (session s) (status s) (isLoading s) (isSubmitting s) (error s)
    (skillLevel s) v (isRecording s)
    (recorderError s) (renderedRecorderError s).
Definition setIsRecording v (s : State) : State :=
  mkState (session s) (status s) (isLoading s) (isSubmitting s) (error s)
    (skillLevel s) (gameEnded s) v
    (recorderError s) (renderedRecorderError s).
Definition setRecorderError v (s : State) : State :=
  mkState (session s) (status s) (isLoading s) (isSubmitting s) (error s)
    (skillLevel s) (gameEnded s) (isRecording s)
    v (renderedRecorderError s).

(** [Object.is] on two values of type [string | undefined]. *)
Definition same (a b : option string) : bool :=
  match a, b with
  | Some x, Some y => String.eqb x y
  | None, None => true
  | _, _ => false
  end.

(** A render, with the effect of lines 85 to 89 after it: the effect runs
    when the error of the hook is not the one of the render before, and
    then copies it, if there is one, over the error shown. *)
Definition render (s : State) : State :=
  let s :=
    if same (recorderError s) (renderedRecorderError s) then s
    else if JS.truthy (recorderError s) then setError (recorderError s) s
    else s in
  mkState (session s) (status s) (isLoading s) (isSubmitting s) (error s)
    (skillLevel s) (gameEnded s) (isRecording s)
    (recorderError s) (recorderError s).

(** The state of the first render. *)
Definition initial : State :=
  mkState None None true false None 5 false false None None.

(** [session?.session_id]: [undefined] without a session. *)
Definition sessionId (s : State) : option string :=
  option_map SessionState.session_id (session s).

(** A handler: it logs effects, changes the state and throws or returns.
    The state changes made before a throw stay. *)
Definition Act (A : Type) : Type := State -> State * M A.

Definition aret {A} (a : A) : Act A := fun s => (s, ret a).
Definition athrow {A} (e : JS.Exn) : Act A := fun s => (s, throw e).
Definition aemit (ef : Effect) : Act unit := fun s => (s, emit ef).
Definition set (f : State -> State) : Act unit := fun s => (f s, ret tt).
Definition abind {A B} (m : Act A) (f : A -> Act B) : Act B :=
  fun s =>
    match m s with
    | (s1, (t, inr a)) => let '(s2, (t', r)) := f a s1 in (s2, ((t ++ t')%list, r))
    | (s1, (t, inl e)) => (s1, (t, inl e))
    end.
Definition atry_catch {A} (m : Act A) (h : JS.Exn -> Act A) : Act A :=
  fun s =>
    match m s with
    | (s1, (t, inl e)) => let '(s2, (t', r)) := h e s1 in (s2, ((t ++ t')%list, r))
    | (s1, (t, inr a)) => (s1, (t, inr a))
    end.
Definition atry_finally {A} (m : Act A) (fin : Act unit) : Act A :=
  fun s =>
    let '(s1, (t, r)) := m s in
    match fin s1 with
    | (s2, (t', inr _)) => (s2, ((t ++ t')%list, r))
    | (s2, (t', inl e)) => (s2, ((t ++ t')%list, inl e))
    end.

Declare Scope act_scope.
Delimit Scope act_scope with act.
Notation "x <- m ;; k" := (abind m (fun x => k))
  (at level 61, m at next level, right associativity) : act_scope.
Notation "m ;; k" := (abind m (fun _ => k))
  (at level 61, right associativity) : act_scope.

Local Open Scope act_scope.

(** What reading [san] off [undefined] throws (the wording is V8's). *)
Definition TypeError_reading_san : JS.Exn :=
  JS.mkExn "TypeError" "Cannot read properties of undefined (reading 'san')".

(** [m.san] for [m] that may be [undefined]. *)
Definition san_of (m : option Move.t) : Act string :=
  match m with
  | Some m => aret (Move.san m)
  | None => athrow TypeError_reading_san
  end.

(** The outcomes of the awaits of one turn: the blob the recorder hands
    over ([None] when nothing was captured), how the turn request
    settles, and what [getSession] settles with. *)
Record TurnEnv : Type := mkTurnEnv {
  captured : option Blob;
  net : FetchOutcome;
  refetch : JS.Exn + SessionState.t
}.

(** [handleStreamUpdate] (lines 125 to 146): a [switch] with no case for
    the error status and no default. *)
Definition handleStreamUpdate (update : StreamUpdate.t) : State -> State :=
  match StreamUpdate.status update with
  | Status.transcribing => setStatus (Some "Transcribing audio...")
  | Status.transcribed =>
      setStatus (Some ("Heard: " ++ JS.dquote
                       ++ JS.interpolate (StreamUpdate.transcript update)
                       ++ JS.dquote))
  | Status.interpreting => setStatus (Some "Interpreting move with LLM...")
  | Status.player_moved =>
      setStatus (Some ("Your move: "
                       ++ JS.interpolate (option_map Move.san (StreamUpdate.move update))
                       ++ ". Engine is thinking..."))
  | Status.engine_thinking => setStatus (Some "Engine is calculating...")
  | Status.complete =>
      setStatus (Some ("Complete! Engine replied "
                       ++ JS.interpolate
                            (option_map Move.san (StreamUpdate.engine_move update))
                       ++ "."))
  | Status.error => fun s => s
  end.

(** The handler run over the updates of a trace, in order. *)
Definition run_handler (t : list Effect) (s : State) : State :=
  fold_left (fun s u => handleStreamUpdate u s) (updates t) s.

(** The four tests of lines 157 to 169 on the engine's SAN, as one
    disjunction. *)
Definition game_over_pattern (san : string) : bool :=
  String.eqb san "Checkmate!"
  || String.eqb san "Stalemate"
  || JS.endsWith "#" san
  || JS.includes "Stalemate" san.

Definition denied_message : string :=
  "Microphone access denied or unsupported browser.".

(** [start] and [stop] of [useAudioRecorder]; [recorder.current] is set
    exactly while [isRecording] holds.  [start] clears the error of the
    hook before anything else; the page is rendered with it cleared
    while the microphone is awaited; a microphone that fails sets it and
    the failure is thrown on. *)
Definition start (mic : JS.Exn + unit) : Act unit :=
  fun s =>
    let s := setRecorderError None s in
    if isRecording s then (s, ret tt)
    else
      let s := render s in
      match mic with
      | inr _ => (setIsRecording true s, ([RecorderStart], inr tt))
      | inl e => (setRecorderError (Some denied_message) s, ([RecorderStart], inl e))
      end.

Definition stop (captured : option Blob) : Act (option Blob) :=
  fun s =>
    if isRecording s
    then (setIsRecording false s, ([RecorderStop], inr captured))
    else (s, ret None).

(** [speakMove] catches everything it throws. *)
Definition speakMove (id text : string) : Act unit := aemit (Speak id text).

Definition getSession (id : string) (r : JS.Exn + SessionState.t)
  : Act SessionState.t :=
  aemit (GetSession id) ;;
  match r with
  | inr s => aret s
  | inl e => athrow e
  end.

Definition createSession (skill : nat) (r : JS.Exn + SessionState.t)
  : Act SessionState.t :=
  aemit (CreateSession skill) ;;
  match r with
  | inr s => aret s
  | inl e => athrow e
  end.

Section Handlers.

Variable API_BASE_URL : string.
Variable JSON_parse : string -> option StreamUpdate.t.

(** [await submitTurnStream(id, blob, handleStreamUpdate)] *)
Definition awaitSubmitTurnStream (id : string) (blob : Blob)
  (net : FetchOutcome) : Act TurnResponse.t :=
  fun s =>
    let m := submitTurnStream API_BASE_URL JSON_parse id blob net in
    (run_handler (trace m) s, m).

(** [startNewGame] (lines 66 to 79) *)
Definition startNewGame (created : JS.Exn + SessionState.t) : Act unit :=
  set (setIsLoading true) ;;
  set (setGameEnded false) ;;
  set (setError None) ;;
  set (setStatus None) ;;
  atry_finally
    (atry_catch
       (fun s =>
          (c <- createSession (skillLevel s) created ;;
           set (setSession (Some c))) s)
       (fun err => set (setError (Some (JS.message err)))))
    (set (setIsLoading false)).

(** [handleStartRecording] (lines 96 to 109) *)
Definition handleStartRecording (mic : JS.Exn + unit) : Act unit :=
  fun s =>
    if negb (JS.truthy (sessionId s)) || isRecording s || isSubmitting s
    then (s, ret tt)
    else
      atry_catch
        (start mic ;;
         set (setStatus (Some "Recording... (release to submit)")) ;;
         set (setError None))
        (fun err =>
           set (setStatus None) ;;
           set (setError (Some (JS.message err)))) s.

(** Lines 156 to 178: the game-ending conditions. *)
Definition announce (id : string) (turn : TurnResponse.t) : Act unit :=
  engine_san <- san_of (TurnResponse.engine_move turn) ;;
  if String.eqb engine_san "Checkmate!" then
    user_san <- san_of (TurnResponse.user_move turn) ;;
    set (setStatus (Some ("Checkmate! You win! Your move: " ++ user_san))) ;;
    speakMove id "Checkmate! You win!" ;;
    set (setGameEnded true)
  else if String.eqb engine_san "Stalemate" then
    user_san <- san_of (TurnResponse.user_move turn) ;;
    set (setStatus (Some ("Stalemate! Game drawn. Your move: " ++ user_san))) ;;
    speakMove id "Stalemate. Game drawn." ;;
    set (setGameEnded true)
  else if JS.endsWith "#" engine_san then
    set (setStatus (Some ("Checkmate! Engine wins with " ++ engine_san))) ;;
    speakMove id "Checkmate! I win!" ;;
    set (setGameEnded true)
  else if JS.includes "Stalemate" engine_san then
    set (setStatus (Some ("Stalemate! Game drawn. Engine played " ++ engine_san))) ;;
    speakMove id "Stalemate. Game drawn." ;;
    set (setGameEnded true)
  else
    user_san <- san_of (TurnResponse.user_move turn) ;;
    set (setStatus
           (Some ("Heard " ++ JS.dquote
                  ++ JS.interpolate (TurnResponse.transcript turn)
                  ++ JS.dquote ++ ". Interpreted move " ++ user_san
                  ++ ". Engine replied " ++ engine_san ++ "."))) ;;
    speakMove id engine_san.

(** [handleStopRecording] (lines 111 to 185) *)
Definition handleStopRecording (env : TurnEnv) : Act unit :=
  fun s =>
    match JS.truthy_value (sessionId s) with
    | None => (s, ret tt)
    | Some id =>
        if negb (isRecording s) || isSubmitting s then (s, ret tt)
        else
          (set (setIsSubmitting true) ;;
           set (setStatus (Some "Uploading audio...")) ;;
           atry_finally
             (atry_catch
                (blob <- stop (captured env) ;;
                 match blob with
                 | None => athrow (JS.Error "No audio captured")
                 | Some blob =>
                     turn <- awaitSubmitTurnStream id blob (net env) ;;
                     updatedSession <- getSession id (refetch env) ;;
                     set (setSession (Some updatedSession)) ;;
                     set (setError None) ;;
                     announce id turn
                 end)
                (fun err =>
                   set (setError (Some (JS.message err))) ;;
                   set (setStatus None)))
             (set (setIsSubmitting false))) s
    end.

(** What the user and the page can do.  The keyboard handlers of lines
    214 to 226 test the key and the refs themselves.  The record button
    carries [disabled={isSubmitting || gameEnded}]: React hands no mouse
    press to the handlers of a disabled button; a touch, the pointer
    leaving and the end of a touch are handed over all the same.  The
    controls are rendered only once a session is loaded, the restart
    button only after the game has ended. *)
Inductive Event : Type :=
| KeyDown (key : string) (repeat : bool) (mic : JS.Exn + unit)
| KeyUp (key : string) (env : TurnEnv)
| PressRecord (mic : JS.Exn + unit)       (* onMouseDown *)
| TouchRecord (mic : JS.Exn + unit)       (* onTouchStart *)
| ReleaseRecord (env : TurnEnv)           (* onMouseUp, onMouseLeave, onTouchEnd *)
| ClickStartNewGame (created : JS.Exn + SessionState.t)
| SlideSkill (level : nat).

Definition controls_rendered (s : State) : bool :=
  negb (isLoading s) && match session s with Some _ => true | None => false end.

Definition record_disabled (s : State) : bool := isSubmitting s || gameEnded s.

Definition skill_disabled (s : State) : bool := isSubmitting s || isRecording s.

Definition idle : Act unit := aret tt.

(** A press that reaches [handleStartRecording], and the render after it.
    [start] is the one call that changes the error of the hook: after any
    other handler the effect of lines 85 to 89 has nothing to do. *)
Definition beginRecording (mic : JS.Exn + unit) : Act unit :=
  fun s => let '(s', m) := handleStartRecording mic s in (render s', m).

Definition dispatch (ev : Event) : Act unit :=
  fun s =>
    match ev with
    | KeyDown key repeat mic =>
        if String.eqb key "Enter" && negb repeat && negb (isRecording s)
           && negb (isSubmitting s) && negb (gameEnded s)
           && JS.truthy (sessionId s)
        then beginRecording mic s else idle s
    | KeyUp key env =>
        if String.eqb key "Enter" && isRecording s && negb (isSubmitting s)
        then handleStopRecording env s else idle s
    | PressRecord mic =>
        if controls_rendered s && negb (record_disabled s)
        then beginRecording mic s else idle s
    | TouchRecord mic =>
        if controls_rendered s then beginRecording mic s else idle s
    | ReleaseRecord env =>
        if controls_rendered s then handleStopRecording env s else idle s
    | ClickStartNewGame created =>
        if controls_rendered s && gameEnded s
        then startNewGame created s else idle s
    | SlideSkill level =>
        if controls_rendered s && negb (skill_disabled s)
        then set (setSkillLevel level) s else idle s
    end.

(** A session of use: the events one after the other. *)
Fixpoint run (evs : list Event) (s : State) : State * list Effect :=
  match evs with
  | [] => (s, [])
  | ev :: rest =>
      let '(s1, (t, _)) := dispatch ev s in
      let '(s2, t') := run rest s1 in
      (s2, (t ++ t')%list)
  end.

(** The first render: the effect of line 81 starts a game. *)
Definition mount (created : JS.Exn + SessionState.t) : State * list Effect :=
  let '(s, (t, _)) := startNewGame created initial in (s, t).

End Handlers.

(** The game has ended and nothing is under way. *)
Definition frozen (s : State) : bool :=
  gameEnded s && negb (isRecording s) && negb (isSubmitting s).


(** A touch on the record button. *)
Definition touches (ev : Event) : bool :=
  match ev with
  | TouchRecord _ => true
  | _ => false
  end.

(** A handler may run: a session with an id is loaded, a recording is on
    and no turn is under way (the guard of line 112). *)
Definition recording (id : string) (s : State) : bool :=
  match JS.truthy_value (sessionId s) with
  | Some id' => String.eqb id' id
  | None => false
  end && isRecording s && negb (isSubmitting s).

End App.

(** What the stream handler leaves alone: everything but the status text. *)
Definition keeps_all_but_status (s s' : App.State) : Prop :=
  App.session s' = App.session s
  /\ App.isLoading s' = App.isLoading s
  /\ App.isSubmitting s' = App.isSubmitting s
  /\ App.error s' = App.error s
  /\ App.skillLevel s' = App.skillLevel s
  /\ App.gameEnded s' = App.gameEnded s
  /\ App.isRecording s' = App.isRecording s
  /\ App.recorderError s' = App.recorderError s
  /\ App.renderedRecorderError s' = App.renderedRecorderError s.


(** ** Sentences of the specification, as it words them

    These are the statements the runs at the end of the file refute; the
    theorems prove what holds in their place. *)

(** Every frame of a stream is dispatched once, in order, however the bytes
    of the frames are cut into chunks. *)
Definition every_frame_is_dispatched (api : string)
  (parse : string -> option StreamUpdate.t) (frames : list Frame)
  (pending : list string) : Prop :=
  join pending = wire frames ->
  Forall (fun f => well_framed parse f = true) frames ->
  map Some (updates (trace (submitTurnStream api parse "s1" "audio"
                              (streaming pending Done))))
  = map (fun f => parse (payload f)) frames.

(** The status-mapping function sets a message that is not empty for the
    status [st]. *)
Definition status_sets_a_message (st : Status.t) : Prop :=
  forall update s,
    StreamUpdate.status update = st ->
    exists text,
      App.status (App.handleStreamUpdate update s) = Some text /\ text <> "".




(** The request was aborted: [fetch], or a read of the body, rejects with
    an error named [AbortError]. *)
Definition aborted (net : FetchOutcome) : bool :=
  match net with
  | inl e => String.eqb (JS.name e) "AbortError"
  | inr response =>
      ok response
      && match body response with
         | Some b =>
             match ending b with
             | Rejects e => String.eqb (JS.name e) "AbortError"
             | Done => false
             end
         | None => false
         end
  end.

(** The failure of the network that the call throws on as it is, if the
    network fails: what [fetch] rejects with, what a refused response
    amounts to, what a read of the body rejects with. *)
Definition passed_on (net : FetchOutcome) : option JS.Exn :=
  match net with
  | inl e => Some e
  | inr response =>
      if negb (ok response) then Some (refusal response)
      else match body response with
           | Some b =>
               match ending b with
               | Rejects e => Some e
               | Done => None
               end
           | None => None
           end
  end.

(** Some awaited step of the call, the read of a refused body among them,
    is cut short by the abort. *)
Definition cut_short (net : FetchOutcome) : bool :=
  aborted net
  || match net with
     | inr response =>
         negb (ok response)
         && match json response with
            | inl e => String.eqb (JS.name e) "AbortError"
            | inr _ => false
            end
     | inl _ => false
     end.

(** A call that the abort cuts short rejects with the timeout message. *)
Definition abort_is_reported (api : string)
  (parse : string -> option StreamUpdate.t) (net : FetchOutcome) : Prop :=
  cut_short net = true ->
  outcome (submitTurnStream api parse "s1" "audio" net)
  = inl (JS.Error timeout_message).

(** The timeout message tells a timeout from every other failure. *)
Definition timeout_message_is_distinct (api : string)
  (parse : string -> option StreamUpdate.t) (net : FetchOutcome) : Prop :=
  outcome (submitTurnStream api parse "s1" "audio" net)
  = inl (JS.Error timeout_message) ->
  aborted net = true.

(** ** Server output used in the examples *)

Module Examples.

Definition api : string := "http://localhost:8000".

Definition transcribing_payload : string := JS.q "{'status':'transcribing'}".

Definition player_moved_payload : string :=
  JS.q "{'status':'player_moved','move':{'uci':'e2e4','san':'e4'}}".

Definition error_payload : string :=
  JS.q "{'status':'error','error':'Could not understand move'}".

Definition complete_payload : string :=
  JS.q "{'status':'complete','transcript':'pawn to e4','user_move':{'uci':'e2e4','san':'e4'},'engine_move':{'uci':'e7e5','san':'e5'},'fen':'rnbqkbnr/pppp1ppp/8/4p3/4P3/8/PPPP1PPP/RNBQKBNR w KQkq - 0 2'}".

Definition mate_payload : string :=
  JS.q "{'status':'complete','transcript':'f3','user_move':{'uci':'g2g4','san':'g4'},'engine_move':{'uci':'d8h4','san':'Qh4#'},'fen':'rnb1kbnr/pppp1ppp/8/4p3/6Pq/5P2/PPPPP2P/RNBQKBNR w KQkq - 1 3'}".


Definition complete_without_fen_payload : string :=
  JS.q "{'status':'complete','transcript':'pawn to e4'}".

(** A frame as server-sent events end it: with a blank line. *)
Definition sse (payload : string) : Frame := mkFrame payload 1.

Definition transcribing_update : StreamUpdate.t :=
  StreamUpdate.mk Status.transcribing None None None None None None.

Definition error_update : StreamUpdate.t :=
  StreamUpdate.mk Status.error None None None None None
    (Some "Could not understand move").

Definition complete_update : StreamUpdate.t :=
  StreamUpdate.mk Status.complete (Some "pawn to e4") None
    (Some (Move.mk "e2e4" "e4")) (Some (Move.mk "e7e5" "e5"))
    (Some "rnbqkbnr/pppp1ppp/8/4p3/4P3/8/PPPP1PPP/RNBQKBNR w KQkq - 0 2") None.

Definition complete_without_fen_update : StreamUpdate.t :=
  StreamUpdate.mk Status.complete (Some "pawn to e4") None None None None None.

Definition complete_turn : TurnResponse.t :=
  TurnResponse.mk (Some "pawn to e4") (Some (Move.mk "e2e4" "e4"))
    (Some (Move.mk "e7e5" "e5"))
    "rnbqkbnr/pppp1ppp/8/4p3/4P3/8/PPPP1PPP/RNBQKBNR w KQkq - 0 2" [].


(** The frame of [transcribing_payload], cut after its 21st byte. *)
Definition cut_frame : list string :=
  [JS.q "data: {'status':'tran"; JS.q "scribing'}" ++ String JS.LF (String JS.LF EmptyString)].

Definition opening : SessionState.t :=
  SessionState.mk "s1" "rnbqkbnr/pppppppp/8/8/8/8/PPPPPPPP/RNBQKBNR w KQkq - 0 1" [].

Definition after_mate : SessionState.t :=
  SessionState.mk "s1" "rnb1kbnr/pppp1ppp/8/4p3/6Pq/5P2/PPPPP2P/RNBQKBNR w KQkq - 1 3"
    [MoveRecord.mk 1 player "f2f3" "f3" (Some "f3") "2025-01-01T00:00:00";
     MoveRecord.mk 2 engine "e7e5" "e5" None "2025-01-01T00:00:01";
     MoveRecord.mk 3 player "g2g4" "g4" (Some "g4") "2025-01-01T00:00:09";
     MoveRecord.mk 4 engine "d8h4" "Qh4#" None "2025-01-01T00:00:10"].

(** The page once the first session is loaded, and with a recording on. *)
Definition loaded : App.State :=
  fst (App.mount (inr opening)).

Definition listening : App.State :=
  fst (App.run api Wire.parseStreamUpdate
         [App.KeyDown "Enter" false (inr tt)] loaded).

Definition offline : JS.Exn := JS.mkExn "TypeError" "Failed to fetch".

(** The engine mates and the session is read back. *)
Definition mated : App.TurnEnv :=
  App.mkTurnEnv (Some "audio") (streaming [wire [sse mate_payload]] Done)
    (inr after_mate).




(** A gateway gives up on the server and says so in the words of the
    client's own timeout. *)
Definition gateway_timeout : Response :=
  mkResponse false "Gateway Timeout"
    (inr (Value.Object [("detail", Value.Str timeout_message)])) None.

(** The server refuses the turn and the abort comes while the body of
    the refusal is read. *)
Definition refusal_cut_short : Response :=
  mkResponse false "Bad Gateway" (inl AbortError) None.

(** An ordinary turn. *)
Definition ordinary : App.TurnEnv :=
  App.mkTurnEnv (Some "audio")
    (streaming [wire [sse transcribing_payload; sse player_moved_payload];
                wire [sse complete_payload]] Done)
    (inr after_mate).

End Examples.

(** * Further parts of the program *)

(** ** Text without a given character *)

Fixpoint lacks (sep : ascii) (s : string) : bool :=
  match s with
  | EmptyString => true
  | String c r => negb (Ascii.eqb c sep) && lacks sep r
  end.

(** A text of ASCII characters only. *)
Fixpoint ascii_only (s : string) : bool :=
  match s with
  | EmptyString => true
  | String c r => (nat_of_ascii c <? 128) && ascii_only r
  end.

(** ** The highlighted squares ([App.tsx], lines 9 to 24)

    Lengths and indices count bytes, which are the code units of the ASCII
    text UCI moves are written in. *)

(** [moves.slice(-2)]: the last two elements, or all when there are fewer. *)
Definition last_two {A : Type} (l : list A) : list A := skipn (length l - 2) l.

(** The callback of [flatMap] (lines 16 to 22). *)
Definition move_squares (move : MoveRecord.t) : list string :=
  let uci := MoveRecord.uci move in
  if String.length uci <? 4 then []
  else [String.substring 0 2 uci; String.substring 2 2 uci].

Definition computeHighlights (moves : list MoveRecord.t) : list string :=
  if length moves =? 0 then []
  else filter (fun square => JS.truthy (Some square))
         (flat_map move_squares (last_two moves)).

(** ** The board ([components/Chessboard.tsx]) *)

Module Chessboard.

(** A byte that continues a UTF-8 sequence. *)
Definition is_continuation (c : ascii) : bool :=
  (128 <=? nat_of_ascii c) && (nat_of_ascii c <? 192).

(** [for (const char of text)]: the characters of a text, one code point
    each, that is a byte together with the continuation bytes after it. *)
Fixpoint characters (text : string) : list string :=
  match text with
  | EmptyString => []
  | String c rest =>
      match rest with
      | String next _ =>
          if is_continuation next then
            match characters rest with
            | char :: chars => String c char :: chars
            | [] => [String c EmptyString]
            end
          else String c EmptyString :: characters rest
      | EmptyString => [String c EmptyString]
      end
  end.

(** [/^[1-8]$/.test(char)], with [Number(char)] when it holds. *)
Definition empty_run (char : string) : option nat :=
  match char with
  | String c EmptyString =>
      if (49 <=? nat_of_ascii c) && (nat_of_ascii c <=? 56)
      then Some (nat_of_ascii c - 48) else None
  | _ => None
  end.

(** A square of the layout: [null], or the character of a piece. *)
Definition Square : Type := option string.

Definition empty_board : list (list Square) := repeat (repeat None 8) 8.

(** The callback of [ranks.map] (lines 44 to 57): the squares a rank
    describes, padded to eight and cut at eight. *)
Definition rank_squares (rank : string) : list Square :=
  let squares :=
    flat_map (fun char =>
                match empty_run char with
                | Some n => repeat None n
                | None => [Some char]
                end) (characters rank) in
  firstn 8 (squares ++ repeat None (8 - length squares)).

(** [parseFen] (lines 33 to 58).  [fen.split(" ")] has at least one piece, so
    its first element is always there. *)
Definition parseFen (fen : option string) : list (list Square) :=
  match JS.truthy_value fen with
  | None => empty_board
  | Some fen =>
      let placement := hd EmptyString (JS.split " " fen) in
      let ranks := JS.split "/" placement in
      if negb (length ranks =? 8) then empty_board
      else map rank_squares ranks
  end.

(** *** Writing a position

    The placement field of FEN, as the standard writes it: the ranks from
    the eighth down, joined by slashes; in a rank a run of empty squares is
    its length and a piece is its letter.  This is what the server sends and
    [parseFen] reads. *)

Definition write_run (run : nat) : string :=
  if run =? 0 then EmptyString else String (ascii_of_nat (48 + run)) EmptyString.

Fixpoint write_rank (run : nat) (row : list (option ascii)) : string :=
  match row with
  | [] => write_run run
  | None :: rest => write_rank (S run) rest
  | Some piece :: rest => write_run run ++ String piece (write_rank 0 rest)
  end.

Fixpoint join_ranks (ranks : list string) : string :=
  match ranks with
  | [] => EmptyString
  | [rank] => rank
  | rank :: rest => rank ++ String "/" (join_ranks rest)
  end.

Definition write_placement (board : list (list (option ascii))) : string :=
  join_ranks (map (write_rank 0) board).

(** A character that can stand for a piece: one ASCII character that is
    neither a digit from 1 to 8, nor the slash, nor the space. *)
Definition piece_letter (c : ascii) : bool :=
  (nat_of_ascii c <? 128)
  && negb ((49 <=? nat_of_ascii c) && (nat_of_ascii c <=? 56))
  && negb (Ascii.eqb c "/") && negb (Ascii.eqb c " ").

(** A board of eight ranks of eight squares, with letters for pieces. *)
Definition well_formed_board (board : list (list (option ascii))) : Prop :=
  length board = 8
  /\ Forall (fun row =>
               length row = 8
               /\ Forall (fun sq => match sq with
                                    | Some p => piece_letter p = true
                                    | None => True
                                    end) row) board.

(** The layout [parseFen] gives for a board. *)
Definition layout_of (board : list (list (option ascii))) : list (list Square) :=
  map (map (option_map (fun p => String p EmptyString))) board.

(** The squares the characters of an ASCII text stand for. *)
Definition expand (s : string) : list Square :=
  flat_map (fun c => match empty_run (String c EmptyString) with
                     | Some n => repeat None n
                     | None => [Some (String c EmptyString)]
                     end) (list_ascii_of_string s).

(** A row whose pieces are piece letters. *)
Definition pieces_are_letters (row : list (option ascii)) : Prop :=
  Forall (fun sq => match sq with
                    | Some p => piece_letter p = true
                    | None => True
                    end) row.

(** *** The component *)

(** [pieceImages]: the picture of each of the twelve piece letters.  A
    piece code is one character, as [parseFen] makes them, and no
    property an object inherits has a name that short: any other code has
    no picture. *)
Definition pieceImages (pieceCode : string) : option string :=
  let base := "https://lichess1.org/assets/_W5EUck/piece/cburnett/" in
  if String.eqb pieceCode "p" then Some (base ++ "bP.svg")
  else if String.eqb pieceCode "r" then Some (base ++ "bR.svg")
  else if String.eqb pieceCode "n" then Some (base ++ "bN.svg")
  else if String.eqb pieceCode "b" then Some (base ++ "bB.svg")
  else if String.eqb pieceCode "q" then Some (base ++ "bQ.svg")
  else if String.eqb pieceCode "k" then Some (base ++ "bK.svg")
  else if String.eqb pieceCode "P" then Some (base ++ "wP.svg")
  else if String.eqb pieceCode "R" then Some (base ++ "wR.svg")
  else if String.eqb pieceCode "N" then Some (base ++ "wN.svg")
  else if String.eqb pieceCode "B" then Some (base ++ "wB.svg")
  else if String.eqb pieceCode "Q" then Some (base ++ "wQ.svg")
  else if String.eqb pieceCode "K" then Some (base ++ "wK.svg")
  else None.

Definition files : list string := ["a"; "b"; "c"; "d"; "e"; "f"; "g"; "h"].

(** [squareId] (lines 29 to 31); the rank is one of 1 to 8, a single
    digit. *)
Definition squareId (file : string) (rank : nat) : string :=
  file ++ String (ascii_of_nat (48 + rank)) EmptyString.

(** What one square of the board shows. *)
Record Cell : Type := mkCell {
  id : string;
  isLight : bool;
  isHighlighted : bool;
  pieceCode : Square;
  pieceImage : option string;      (* the picture drawn, if any *)
  coordinate : option string       (* the name written, if any *)
}.

(** [a.includes(x)] on an array of strings. *)
Definition includes (xs : list string) (x : string) : bool :=
  existsb (String.eqb x) xs.

(** The body of [files.map] (lines 68 to 92). *)
Definition cell (layout : option (list (list Square)))
  (highlights : list string) (showCoordinates showPieces : bool)
  (rank fileIdx : nat) (file : string) : Cell :=
  let id := squareId file rank in
  let rowIndex := 8 - rank in
  let pieceCode :=
    match layout with
    | Some rows =>
        match nth_error rows rowIndex with
        | Some row =>
            match nth_error row fileIdx with
            | Some square => square
            | None => None
            end
        | None => None
        end
    | None => None
    end in
  let pieceImage :=
    match pieceCode with
    | Some code => pieceImages code
    | None => None
    end in
  mkCell id ((fileIdx + rank) mod 2 =? 0) (includes highlights id) pieceCode
    (if showPieces then pieceImage else None)
    (if showCoordinates then Some id else None).

(** [Chessboard] (lines 60 to 97): the rows from rank 8 down, each from
    file a to file h. *)
Definition Chessboard (fen : option string) (highlights : list string)
  (showCoordinates showPieces : bool) : list (list Cell) :=
  let layout := if showPieces then Some (parseFen fen) else None in
  map (fun rank =>
         map (fun '(fileIdx, file) =>
                cell layout highlights showCoordinates showPieces rank fileIdx file)
           (combine (seq 0 8) files))
    (map (fun rowIdx => 8 - rowIdx) (seq 0 8)).

(** The board of a session, as [App] draws it once a session is loaded
    (lines 91 to 94 and 248 to 253). *)
Definition of_session (session : SessionState.t) (showCoordinates showPieces : bool)
  : list (list Cell) :=
  Chessboard (Some (SessionState.fen session))
    (computeHighlights (SessionState.moves session)) showCoordinates showPieces.

End Chessboard.

(** ** States between two events *)

(** A recording is on only with a session to send it to, and never after
    the game has ended. *)
Definition orderly (s : App.State) : bool :=
  (negb (App.isRecording s) || JS.truthy (App.sessionId s))
  && (negb (App.gameEnded s) || negb (App.isRecording s)).

(** The text under the record button (line 289). *)
Definition record_hint (s : App.State) : string :=
  if App.isRecording s then "Release to submit"
  else if App.gameEnded s then "Game over"
  else "Hold or press Enter".

(** ** Speaking a move ([App.tsx], lines 26 to 41) *)

Module Speech.

(** The characters [encodeURIComponent] leaves as they are: letters,
    digits and the marks [- _ . ! ~ * ' ( )]. *)
Definition unreserved (c : ascii) : bool :=
  let n := nat_of_ascii c in
  ((65 <=? n) && (n <=? 90)) || ((97 <=? n) && (n <=? 122))
  || ((48 <=? n) && (n <=? 57))
  || existsb (Ascii.eqb c) ["-"; "_"; "."; "!"; "~"; "*"; "'"; "("; ")"]%char.

(** An upper-case hexadecimal digit. *)
Definition hex_digit (n : nat) : ascii :=
  if n <? 10 then ascii_of_nat (48 + n) else ascii_of_nat (55 + n).

(** [encodeURIComponent(s)] on a text that holds no surrogate: every
    other byte of the UTF-8 text becomes a percent sign and two
    hexadecimal digits. *)
Fixpoint encodeURIComponent (s : string) : string :=
  match s with
  | EmptyString => EmptyString
  | String c rest =>
      if unreserved c then String c (encodeURIComponent rest)
      else String "%" (String (hex_digit (nat_of_ascii c / 16))
                         (String (hex_digit (nat_of_ascii c mod 16))
                            (encodeURIComponent rest)))
  end.

(** Percent-decoding, which whoever receives the address applies to the
    segment; [None] on a percent sign not followed by two hexadecimal
    digits. *)
Fixpoint percent_decode (s : string) : option string :=
  match s with
  | EmptyString => Some EmptyString
  | String c rest =>
      if Ascii.eqb c "%" then
        match rest with
        | String h (String l rest) =>
            match JSON.hex_value h, JSON.hex_value l, percent_decode rest with
            | Some hi, Some lo, Some text =>
                Some (String (ascii_of_nat (16 * hi + lo)) text)
            | _, _, _ => None
            end
        | _ => None
        end
      else option_map (String c) (percent_decode rest)
  end.

(** The four bytes of the character a surrogate pair stands for; a
    surrogate is held as the bytes ED, [b], [c], the first half with [b]
    from A0 to AF, the second with [b] from B0 to BF. *)
Definition pair_bytes (b c b' c' : ascii) : string :=
  let high := ((N_of_ascii b - 160) * 64 + (N_of_ascii c - 128))%N in
  let low := ((N_of_ascii b' - 176) * 64 + (N_of_ascii c' - 128))%N in
  let point := (65536 + high * 1024 + low)%N in
  String (ascii_of_N (240 + point / 262144))
    (String (ascii_of_N (128 + (point / 4096) mod 64))
       (String (ascii_of_N (128 + (point / 64) mod 64))
          (String (ascii_of_N (128 + point mod 64)) EmptyString))).

(** The characters of a text as [encodeURIComponent] reads them: the two
    halves of a surrogate pair become the one character they stand for;
    [None] when a half stands alone. *)
Fixpoint scalars (s : string) : option string :=
  match s with
  | EmptyString => Some EmptyString
  | String a rest =>
      match rest with
      | String b (String c rest') =>
          if (N_of_ascii a =? 237)%N && (160 <=? N_of_ascii b)%N then
            if (N_of_ascii b <=? 175)%N then
              match rest' with
              | String a' (String b' (String c' rest'')) =>
                  if (N_of_ascii a' =? 237)%N && (176 <=? N_of_ascii b')%N
                  then option_map (append (pair_bytes b c b' c')) (scalars rest'')
                  else None
              | _ => None
              end
            else None
          else option_map (String a) (scalars rest)
      | _ => option_map (String a) (scalars rest)
      end
  end.

(** What [encodeURIComponent] throws on half a surrogate pair; the
    wording is the engine's. *)
Definition URIError : JS.Exn := JS.mkExn "URIError" "URI malformed".

Inductive Effect : Type :=
| Request (url : string)      (* fetch(url) *)
| ReadBlob                    (* response.blob() *)
| Play                        (* audio.play() *)
| ConsoleError (e : JS.Exn).  (* console.error("TTS playback failed:", err) *)

(** What the awaits settle with: the request (with the [ok] flag of the
    response), the read of the body, the start of the playback. *)
Record Env : Type := mkEnv {
  response : JS.Exn + bool;
  audioBlob : JS.Exn + unit;
  playback : JS.Exn + unit
}.

(** The address of line 29, [None] when [encodeURIComponent] throws. *)
Definition tts_url (API_BASE_URL sessionId move : string) : option string :=
  match scalars move with
  | Some text =>
      Some (API_BASE_URL ++ "/sessions/" ++ sessionId ++ "/tts/"
            ++ encodeURIComponent text)
  | None => None
  end.

(** The body of the [try] (lines 28 to 37): the address is built before
    the request is made. *)
Definition attempt (API_BASE_URL sessionId move : string) (env : Env)
  : list Effect * (JS.Exn + unit) :=
  match tts_url API_BASE_URL sessionId move with
  | None => ([], inl URIError)
  | Some url =>
      match response env with
      | inl e => ([Request url], inl e)
      | inr false => ([Request url], inr tt)
      | inr true =>
          match audioBlob env with
          | inl e => ([Request url; ReadBlob], inl e)
          | inr _ =>
              match playback env with
              | inl e => ([Request url; ReadBlob; Play], inl e)
              | inr _ => ([Request url; ReadBlob; Play], inr tt)
              end
          end
      end
  end.

(** [speakMove]: the [catch] of lines 38 to 40 logs what the [try]
    threw. *)
Definition speakMove (API_BASE_URL sessionId move : string) (env : Env)
  : list Effect * (JS.Exn + unit) :=
  match attempt API_BASE_URL sessionId move env with
  | (t, inl err) => ((t ++ [ConsoleError err])%list, inr tt)
  | (t, inr _) => (t, inr tt)
  end.

End Speech.

(** ** Plain JSON requests ([api/client.ts], lines 5 to 44)

    [createSession], [updateSkillLevel], [getSession] and [submitTurn] all
    end in [handleResponse] on what [fetch] resolved with. *)

Module Api.

(** A response as [handleResponse] reads it: the flag, the status text and
    what [response.json()] settles with (it rejects on a body that is not
    JSON). *)
Record Reply : Type := mkReply {
  ok : bool;
  statusText : string;
  json : JS.Exn + JSON.json
}.

(** [v?.key] on a parsed value, [None] for [undefined]: only an object has
    members; on [null] the chain stops, on a string, a number, a boolean
    or an array the name is not found. *)
Definition property (key : string) (v : JSON.json) : option JSON.json :=
  match v with
  | JSON.Object members => JSON.get key members
  | _ => None
  end.

(** [v ?? dflt]: [dflt] for [undefined] and for [null]. *)
Definition nullish (v : option JSON.json) (dflt : JSON.json) : JSON.json :=
  match v with
  | None | Some JSON.Null => dflt
  | Some w => w
  end.

(** [handleResponse] (lines 5 to 12).  The cast of line 11 checks nothing:
    the value is handed over as parsed. *)
Definition handleResponse (response : Reply) : JS.Exn + JSON.json :=
  if negb (ok response) then
    let detail :=
      match json response with
      | inr v => v
      | inl _ => JSON.Object []
      end in
    let message := nullish (property "detail" detail) (JSON.Str (statusText response)) in
    inl (JS.Error (match message with
                   | JSON.Str text => text
                   | _ => "Request failed"
                   end))
  else json response.

End Api.

(** ** The recorder hook ([hooks/useAudioRecorder.ts])

    The refs and the state of the hook, and what the browser does to it:
    the microphone is granted or not, the recorder hands over data, the
    recorder stops.  A blob is its bytes; [new Blob(chunks)] is their
    concatenation.  As for the controller, a call sees the state the call
    before it left. *)

Module Recorder.

Record State : Type := mkState {
  mediaStream : bool;          (* [mediaStream.current] holds a stream *)
  recorder : bool;             (* [recorder.current] holds a recorder *)
  chunks : list Blob;
  isRecording : bool;
  error : option string
}.

Definition initial : State := mkState false false [] false None.

(** What the [try] of lines 30 to 36 meets: [getUserMedia] rejects, or it
    resolves and [new MediaRecorder] throws, or both go through. *)
Inductive Microphone : Type :=
| Granted
| Denied (e : JS.Exn)
| Unsupported (e : JS.Exn).

Definition denied_message : string :=
  "Microphone access denied or unsupported browser.".

(** [start] (lines 24 to 47).  [recorder.start()] on the recorder just
    made is taken to go through. *)
Definition start (mic : Microphone) (s : State) : State * (JS.Exn + unit) :=
  let s := mkState (mediaStream s) (recorder s) (chunks s) (isRecording s) None in
  if isRecording s then (s, inr tt)
  else
    match mic with
    | Denied e =>
        (mkState (mediaStream s) (recorder s) (chunks s) (isRecording s)
           (Some denied_message), inl e)
    | Unsupported e =>
        (mkState true (recorder s) (chunks s) (isRecording s)
           (Some denied_message), inl e)
    | Granted => (mkState true true [] true (error s), inr tt)
    end.

(** The listener of lines 39 to 43, on the recorder [start] made: without
    a recorder nobody listens. *)
Definition dataavailable (data : Blob) (s : State) : State :=
  if recorder s && (0 <? String.length data)
  then mkState (mediaStream s) (recorder s) (chunks s ++ [data]) (isRecording s) (error s)
  else s.

(** [stop] (lines 49 to 69): [recorder.stop()] makes the recorder hand
    over what it still holds, [final], and then fire [stop]. *)
Definition stop (final : list Blob) (s : State) : State * option Blob :=
  if negb (isRecording s) || negb (recorder s) then (s, None)
  else
    let s := fold_left (fun s data => dataavailable data s) final s in
    (mkState false false [] false (error s),
     match chunks s with
     | [] => None
     | _ :: _ => Some (String.concat EmptyString (chunks s))
     end).

Inductive Event : Type :=
| Start (mic : Microphone)
| Data (data : Blob)
| Stop (final : list Blob).

Definition step (ev : Event) (s : State) : State :=
  match ev with
  | Start mic => fst (start mic s)
  | Data data => dataavailable data s
  | Stop final => fst (stop final s)
  end.

Definition run (evs : list Event) (s : State) : State :=
  fold_left (fun s ev => step ev s) evs s.

(** What holds of the refs between two events. *)
Definition consistent (s : State) : Prop :=
  recorder s = isRecording s
  /\ (isRecording s = true -> mediaStream s = true)
  /\ (isRecording s = false -> chunks s = [])
  /\ Forall (fun data => data <> EmptyString) (chunks s).

End Recorder.

(** ** Further server output and boards used in the examples *)

Module Samples.

Import Examples.

(** The first position of a game, rank 8 first. *)
Definition starting_board : list (list (option ascii)) :=
  let x : option ascii := None in
  let p (c : ascii) : option ascii := Some c in
  [[p "r"; p "n"; p "b"; p "q"; p "k"; p "b"; p "n"; p "r"];
   [p "p"; p "p"; p "p"; p "p"; p "p"; p "p"; p "p"; p "p"];
   [x; x; x; x; x; x; x; x];
   [x; x; x; x; x; x; x; x];
   [x; x; x; x; x; x; x; x];
   [x; x; x; x; x; x; x; x];
   [p "P"; p "P"; p "P"; p "P"; p "P"; p "P"; p "P"; p "P"];
   [p "R"; p "N"; p "B"; p "Q"; p "K"; p "B"; p "N"; p "R"]]%char.

(** The square h4 of the board after the mate: dark, reached by the queen
    in the last move. *)
Definition h4 : Chessboard.Cell :=
  Chessboard.mkCell "h4" false true (Some "q")
    (Some "https://lichess1.org/assets/_W5EUck/piece/cburnett/bQ.svg") (Some "h4").

(** The request cannot reach the server. *)
Definition unreachable : App.TurnEnv :=
  App.mkTurnEnv (Some "audio") (inl offline) (inr opening).

(** The server refuses the turn. *)
Definition refused : Response :=
  mkResponse false "Not Found"
    (inr (Value.Object [("detail", Value.Str "Session not found")])) None.

(** The recorder hands over nothing. *)
Definition silent : App.TurnEnv :=
  App.mkTurnEnv None (inl offline) (inr opening).

(** A comment line of the event stream. *)
Definition keepalive : string := ": keepalive".

(** The user refuses the microphone. *)
Definition denied : JS.Exn := JS.mkExn "NotAllowedError" "Permission denied".

(** The answer to a request for a session that is gone. *)
Definition not_found : Api.Reply :=
  Api.mkReply false "Not Found"
    match JSON.parse (JS.q "{'detail':'Session not found'}") with
    | Some v => inr v
    | None => inl SyntaxError
    end.

End Samples.

(** * Results *)

(** ** Traces *)

Lemma updates_app (t1 t2 : list Effect) :
  updates (t1 ++ t2) = (updates t1 ++ updates t2)%list.
Proof.
  induction t1 as [|ef t1 IH]; [reflexivity|].
  destruct ef; simpl; rewrite ?IH; reflexivity.
Qed.

(** *** Terminal success events *)

Lemma synthesize_terminal (data : StreamUpdate.t) :
  terminal_success data = false <-> synthesize data = None.
Proof.
  unfold terminal_success, synthesize, final_position, JS.truthy_value.
  destruct (Status.eqb _ _); cbn; [|tauto].
  destruct (StreamUpdate.fen data) as [fen|]; cbn; [|tauto].
  destruct (String.eqb fen ""); cbn; split; congruence.
Qed.

Lemma synthesize_moves (data : StreamUpdate.t) (r : TurnResponse.t) :
  synthesize data = Some r ->
  TurnResponse.moves r = []
  /\ StreamUpdate.status data = Status.complete
  /\ StreamUpdate.fen data = Some (TurnResponse.fen r)
  /\ TurnResponse.fen r <> ""
  /\ r = TurnResponse.mk (StreamUpdate.transcript data) (StreamUpdate.user_move data)
           (StreamUpdate.engine_move data) (TurnResponse.fen r) [].
Proof.
  unfold synthesize, final_position, JS.truthy_value, JS.truthy.
  destruct (StreamUpdate.status data) eqn:Hs; cbn; try discriminate.
  destruct (StreamUpdate.fen data) as [fen|]; [|discriminate].
  destruct (String.eqb fen "") eqn:Hf; cbn; [discriminate|].
  intros [= <-]. cbn. repeat split.
  intros ->. discriminate.
Qed.

Lemma latest_none (us : list StreamUpdate.t) :
  Forall (fun u => terminal_success u = false) us ->
  forall finalResult, fold_left latest us finalResult = finalResult.
Proof.
  induction 1 as [|u us Hu _ IH]; intros finalResult; [reflexivity|].
  cbn. unfold latest at 2. apply synthesize_terminal in Hu. rewrite Hu. apply IH.
Qed.

(** The result the loop ends with is the one built from the last terminal
    success event. *)
Lemma latest_last (before after : list StreamUpdate.t) (data : StreamUpdate.t)
  (r : TurnResponse.t) (finalResult : option TurnResponse.t) :
  synthesize data = Some r ->
  Forall (fun u => terminal_success u = false) after ->
  fold_left latest (before ++ data :: after) finalResult = Some r.
Proof.
  intros Hd Ha. rewrite fold_left_app. cbn.
  rewrite (latest_none after Ha). unfold latest. rewrite Hd. reflexivity.
Qed.

Lemma latest_some (us : list StreamUpdate.t) :
  forall finalResult r,
    fold_left latest us finalResult = Some r ->
    finalResult = Some r \/ exists data, In data us /\ synthesize data = Some r.
Proof.
  induction us as [|u us IH]; intros finalResult r H; [left; exact H|].
  cbn in H. apply IH in H. destruct H as [H|(data & Hin & Hd)].
  - unfold latest in H. destruct (synthesize u) as [r'|] eqn:Hu.
    + right. exists u. split; [left; reflexivity|congruence].
    + left. exact H.
  - right. exists data. split; [right; exact Hin|exact Hd].
Qed.

(** Runs the combinators of [M] on what is already a value. *)
Ltac run_M :=
  cbn [bind emit ret throw try_catch try_finally outcome trace fst snd app
       negb ok body].

(** What a refused response makes the call throw is no abort. *)
Lemma refusal_name (response : Response) :
  String.eqb (JS.name (refusal response)) "AbortError" = false.
Proof.
  unfold refusal. cbv zeta. destruct (Value.ToString _); reflexivity.
Qed.

Section ClientFacts.

Variable API_BASE_URL : string.
Variable JSON_parse : string -> option StreamUpdate.t.

(** A refused response: its body is read as JSON for the message, and
    that is all. *)
Lemma submitTurnStream_refused (sessionId : string) (audio : Blob)
  (response : Response) :
  ok response = false ->
  submitTurnStream API_BASE_URL JSON_parse sessionId audio (inr response)
  = ([SetTimeout timeout_ms;
      Fetch (turn_stream_url API_BASE_URL sessionId) audio;
      ReadJson;
      ClearTimeout],
     inl (refusal response)).
Proof.
  intros Hok. unfold submitTurnStream, turn_stream_url. run_M.
  rewrite Hok. run_M. rewrite refusal_name. reflexivity.
Qed.

(** One line: the [catch] of lines 115 to 117 leaves nothing to escape. *)
Lemma for_line_spec (line : string) (finalResult : option TurnResponse.t) :
  outcome (for_line JSON_parse line finalResult)
  = inr (match line_update JSON_parse line with
         | Some data => latest finalResult data
         | None => finalResult
         end)
  /\ updates (trace (for_line JSON_parse line finalResult))
     = match line_update JSON_parse line with Some data => [data] | None => [] end
  /\ Forall (fun ef => reading_effect ef = true) (trace (for_line JSON_parse line finalResult)).
Proof.
  unfold for_line, line_update, try_frame, latest, synthesize.
  destruct (JS.startsWith frame_marker line); [|repeat split; constructor].
  destruct (JSON_parse (JS.slice 6 line)) as [data|]; cbn.
  - destruct (final_position data) as [fen|]; cbn.
    + repeat split. repeat constructor.
    + destruct (Status.eqb (StreamUpdate.status data) Status.error
                || JS.truthy (StreamUpdate.error data)); cbn;
        repeat split; repeat constructor.
  - repeat split. repeat constructor.
Qed.

Lemma for_lines_spec (lines : list string) :
  forall finalResult,
    outcome (for_lines JSON_parse lines finalResult)
    = inr (fold_left latest (line_updates JSON_parse lines) finalResult)
    /\ updates (trace (for_lines JSON_parse lines finalResult))
       = line_updates JSON_parse lines
    /\ Forall (fun ef => reading_effect ef = true)
         (trace (for_lines JSON_parse lines finalResult)).
Proof.
  induction lines as [|line rest IH]; intros finalResult.
  - repeat split. constructor.
  - destruct (for_line_spec line finalResult) as (Ho & Hu & Hr).
    cbn [for_lines]. unfold bind.
    destruct (for_line JSON_parse line finalResult) as [t [e|fr]];
      cbn [outcome trace fst snd] in *; [discriminate|].
    injection Ho as ->.
    specialize (IH (match line_update JSON_parse line with
                    | Some data => latest finalResult data
                    | None => finalResult
                    end)).
    destruct (for_lines JSON_parse rest _) as [t' r];
      cbn [outcome trace fst snd] in *.
    destruct IH as (IHo & IHu & IHr).
    unfold line_updates in *. cbn [flat_map].
    rewrite updates_app, Hu, IHu, IHo, fold_left_app.
    repeat split.
    + destruct (line_update JSON_parse line); reflexivity.
    + apply Forall_app; split; assumption.
Qed.

(** The loop: every chunk is split and its lines handled in order; only
    [reader.read()] can make it throw. *)
Lemma read_loop_spec (pending : list string) (ending : StreamEnd) :
  forall finalResult,
    outcome (read_loop JSON_parse pending ending finalResult)
    = match ending with
      | Done => inr (fold_left latest (dispatched JSON_parse pending) finalResult)
      | Rejects e => inl e
      end
    /\ updates (trace (read_loop JSON_parse pending ending finalResult))
       = dispatched JSON_parse pending
    /\ Forall (fun ef => reading_effect ef = true)
         (trace (read_loop JSON_parse pending ending finalResult)).
Proof.
  induction pending as [|chunk rest IH]; intros finalResult.
  - cbn. destruct ending; cbn; repeat split; repeat constructor.
  - destruct (for_lines_spec (JS.split JS.LF chunk) finalResult) as (Ho & Hu & Hr).
    cbn [read_loop]. unfold bind, emit.
    destruct (for_lines JSON_parse (JS.split JS.LF chunk) finalResult) as [t [e|fr]];
      cbn [outcome trace fst snd] in *; [discriminate|].
    injection Ho as ->.
    specialize (IH (fold_left latest
                      (line_updates JSON_parse (JS.split JS.LF chunk)) finalResult)).
    destruct (read_loop JSON_parse rest ending _) as [t' r];
      cbn [outcome trace fst snd] in *.
    destruct IH as (IHo & IHu & IHr).
    unfold dispatched in *. cbn [flat_map app updates].
    rewrite updates_app, Hu, IHu, IHo.
    destruct ending; rewrite ?fold_left_app.
    all: repeat split.
    all: constructor; [reflexivity|]; apply Forall_app; split; assumption.
Qed.

(** A request that went through and has a body: the run is the loop
    between the acquisition and the release of the reader. *)
Lemma submitTurnStream_streaming (sessionId : string) (audio : Blob)
  (stx : string) (d : JS.Exn + Value.t) (b : Body) :
  let loop := read_loop JSON_parse (chunks b) (ending b) None in
  submitTurnStream API_BASE_URL JSON_parse sessionId audio
    (inr (mkResponse true stx d (Some b)))
  = ((SetTimeout timeout_ms :: Fetch (turn_stream_url API_BASE_URL sessionId) audio :: GetReader
        :: trace loop ++ [ReleaseLock; ClearTimeout])%list,
     match outcome loop with
     | inr (Some r) => inr r
     | inr None => inl (JS.Error missing_result_message)
     | inl e => inl (if String.eqb (JS.name e) "AbortError"
                     then JS.Error timeout_message else e)
     end).
Proof.
  cbv zeta. unfold submitTurnStream, turn_stream_url.
  run_M.
  destruct (read_loop JSON_parse (chunks b) (ending b) None) as [t [e|[r|]]];
    run_M.
  - destruct (String.eqb (JS.name e) "AbortError"); run_M;
      rewrite ?app_nil_r, <- ?app_assoc; reflexivity.
  - rewrite ?app_nil_r, <- ?app_assoc. reflexivity.
  - cbn [String.eqb JS.name JS.Error Ascii.eqb Bool.eqb].
    run_M. rewrite ?app_nil_r, <- ?app_assoc. reflexivity.
Qed.


End ClientFacts.

(** ** Splitting a chunk into lines *)

Lemma append_assoc (a b c : string) : (a ++ b) ++ c = a ++ (b ++ c).
Proof. induction a as [|x a IH]; cbn; [reflexivity|rewrite IH; reflexivity]. Qed.

Lemma no_LF_append (a b : string) :
  no_LF (a ++ b) = no_LF a && no_LF b.
Proof.
  induction a as [|x a IH]; cbn; [reflexivity|].
  rewrite IH, andb_assoc. reflexivity.
Qed.

(** A line ends at the first line feed. *)
Lemma split_line (a rest : string) :
  no_LF a = true ->
  JS.split JS.LF (a ++ String JS.LF rest) = a :: JS.split JS.LF rest.
Proof.
  induction a as [|x a IH]; cbn [no_LF append JS.split]; intros H.
  - rewrite Ascii.eqb_refl. reflexivity.
  - apply andb_prop in H. destruct H as [Hx Ha].
    apply negb_true_iff in Hx. rewrite Hx, (IH Ha). reflexivity.
Qed.

Lemma split_line_feeds (k : nat) (rest : string) :
  JS.split JS.LF (line_feeds k ++ rest)
  = (repeat EmptyString k ++ JS.split JS.LF rest)%list.
Proof.
  induction k as [|k IH]; cbn [line_feeds append repeat app JS.split]; [reflexivity|].
  rewrite Ascii.eqb_refl, IH. reflexivity.
Qed.

Lemma split_frame (f : Frame) (rest : string) :
  no_LF (payload f) = true ->
  JS.split JS.LF (frame_text f ++ rest)
  = (frame_lines f ++ JS.split JS.LF rest)%list.
Proof.
  intros H. unfold frame_text, frame_lines.
  rewrite <- (append_assoc frame_marker), append_assoc.
  change (String JS.LF (line_feeds (blank_lines f)) ++ rest)
    with (String JS.LF (line_feeds (blank_lines f) ++ rest)).
  rewrite split_line, split_line_feeds; [reflexivity|].
  rewrite no_LF_append, H. reflexivity.
Qed.

Lemma split_wire (fs : list Frame) :
  Forall (fun f => no_LF (payload f) = true) fs ->
  JS.split JS.LF (wire fs) = (flat_map frame_lines fs ++ [EmptyString])%list.
Proof.
  induction 1 as [|f fs Hf _ IH]; cbn [wire flat_map]; [reflexivity|].
  rewrite (split_frame f (wire fs) Hf), IH, app_assoc. reflexivity.
Qed.

Section Framing.

Variable API_BASE_URL : string.
Variable JSON_parse : string -> option StreamUpdate.t.

Lemma line_updates_app (l1 l2 : list string) :
  line_updates JSON_parse (l1 ++ l2)
  = (line_updates JSON_parse l1 ++ line_updates JSON_parse l2)%list.
Proof. unfold line_updates. apply flat_map_app. Qed.

Lemma line_updates_blank (k : nat) :
  line_updates JSON_parse (repeat EmptyString k) = [].
Proof. induction k as [|k IH]; cbn; [reflexivity|exact IH]. Qed.

Lemma line_update_frame (p : string) :
  line_update JSON_parse (frame_marker ++ p) = JSON_parse p.
Proof. reflexivity. Qed.

Lemma line_updates_frame (f : Frame) :
  line_updates JSON_parse (frame_lines f)
  = match JSON_parse (payload f) with Some u => [u] | None => [] end.
Proof.
  unfold frame_lines, line_updates. cbn [flat_map].
  rewrite line_update_frame.
  change (flat_map _ (repeat EmptyString (blank_lines f)))
    with (line_updates JSON_parse (repeat EmptyString (blank_lines f))).
  rewrite line_updates_blank, app_nil_r. reflexivity.
Qed.

(** A chunk made of whole frames hands over their updates, in order. *)
Lemma line_updates_wire (fs : list Frame) :
  Forall (fun f => well_framed JSON_parse f = true) fs ->
  map Some (line_updates JSON_parse (JS.split JS.LF (wire fs)))
  = map (fun f => JSON_parse (payload f)) fs.
Proof.
  intros H.
  rewrite split_wire.
  2:{ eapply Forall_impl; [|exact H]. intros f Hf.
      apply andb_prop in Hf. exact (proj1 Hf). }
  rewrite line_updates_app. cbn [line_updates flat_map].
  change (line_update JSON_parse "") with (@None StreamUpdate.t).
  rewrite !app_nil_r.
  induction H as [|f fs Hf _ IH]; [reflexivity|].
  cbn [flat_map map]. rewrite line_updates_app, map_app, IH, line_updates_frame.
  apply andb_prop in Hf. destruct Hf as [_ Hf].
  destruct (JSON_parse (payload f)); [reflexivity|discriminate].
Qed.

Lemma dispatched_groups (groups : list (list Frame)) :
  Forall (fun f => well_framed JSON_parse f = true) (concat groups) ->
  map Some (dispatched JSON_parse (map wire groups))
  = map (fun f => JSON_parse (payload f)) (concat groups).
Proof.
  induction groups as [|g groups IH]; cbn [concat map]; intros H; [reflexivity|].
  apply Forall_app in H. destruct H as [Hg Hrest].
  unfold dispatched in *. cbn [flat_map].
  rewrite !map_app, (line_updates_wire g Hg), (IH Hrest). reflexivity.
Qed.

(** The updates a request that streams [pending] dispatches. *)
Lemma updates_submitTurnStream (sessionId : string) (audio : Blob)
  (stx : string) (d : JS.Exn + Value.t) (b : Body) :
  updates (trace (submitTurnStream API_BASE_URL JSON_parse sessionId audio
                    (inr (mkResponse true stx d (Some b)))))
  = dispatched JSON_parse (chunks b).
Proof.
  rewrite submitTurnStream_streaming. cbv zeta. cbn [trace fst updates].
  rewrite updates_app. cbn [updates]. rewrite app_nil_r.
  apply (read_loop_spec JSON_parse (chunks b) (ending b) None).
Qed.

Lemma for_line_reads (line : string) (finalResult : option TurnResponse.t) :
  reads_and_updates (trace (for_line JSON_parse line finalResult))
  = map OnUpdate (match line_update JSON_parse line with
                  | Some data => [data]
                  | None => []
                  end).
Proof.
  unfold for_line, line_update, try_frame.
  destruct (JS.startsWith frame_marker line); [|reflexivity].
  destruct (JSON_parse (JS.slice 6 line)) as [data|]; run_M; [|reflexivity].
  destruct (final_position data); run_M; [reflexivity|].
  destruct (Status.eqb _ _ || JS.truthy _); reflexivity.
Qed.

Lemma for_lines_reads (lines : list string) :
  forall finalResult,
    reads_and_updates (trace (for_lines JSON_parse lines finalResult))
    = map OnUpdate (line_updates JSON_parse lines).
Proof.
  induction lines as [|line rest IH]; intros finalResult; [reflexivity|].
  pose proof (for_line_reads line finalResult) as Hline.
  destruct (for_line_spec JSON_parse line finalResult) as (Ho & _ & _).
  cbn [for_lines]. unfold bind.
  destruct (for_line JSON_parse line finalResult) as [t [e|fr]];
    cbn [outcome trace fst snd] in *; [discriminate|].
  specialize (IH fr).
  destruct (for_lines JSON_parse rest fr) as [t' r]; cbn [trace fst] in *.
  unfold reads_and_updates in *. rewrite filter_app, Hline, IH.
  unfold line_updates. cbn [flat_map]. rewrite map_app. reflexivity.
Qed.

(** The loop reads, hands over the updates of the chunk it got, and only
    then reads again. *)
Lemma read_loop_reads (pending : list string) (ending : StreamEnd) :
  forall finalResult,
    reads_and_updates (trace (read_loop JSON_parse pending ending finalResult))
    = (flat_map (fun chunk =>
                   Read :: map OnUpdate
                             (line_updates JSON_parse (JS.split JS.LF chunk)))
         pending ++ [Read])%list.
Proof.
  induction pending as [|chunk rest IH]; intros finalResult.
  - cbn. destruct ending; reflexivity.
  - pose proof (for_lines_reads (JS.split JS.LF chunk) finalResult) as Hchunk.
    destruct (for_lines_spec JSON_parse (JS.split JS.LF chunk) finalResult)
      as (Ho & _ & _).
    cbn [read_loop]. unfold bind, emit.
    destruct (for_lines JSON_parse (JS.split JS.LF chunk) finalResult) as [t [e|fr]];
      cbn [outcome trace fst snd] in *; [discriminate|].
    specialize (IH fr).
    destruct (read_loop JSON_parse rest ending fr) as [t' r]; cbn [trace fst] in *.
    unfold reads_and_updates in *. cbn [app filter flat_map].
    rewrite filter_app, Hchunk, IH, <- app_assoc. reflexivity.
Qed.

Lemma line_updates_frames (fs : list Frame) :
  Forall (fun f => no_LF (payload f) = true) fs ->
  line_updates JSON_parse (JS.split JS.LF (wire fs)) = frame_updates JSON_parse fs.
Proof.
  intros H. rewrite (split_wire fs H), line_updates_app.
  cbn [line_updates flat_map].
  change (line_update JSON_parse "") with (@None StreamUpdate.t).
  rewrite !app_nil_r. clear H.
  induction fs as [|f fs IH]; [reflexivity|].
  cbn [flat_map frame_updates]. rewrite line_updates_app, IH, line_updates_frame.
  reflexivity.
Qed.

Lemma reads_submitTurnStream (sessionId : string) (audio : Blob)
  (stx : string) (d : JS.Exn + Value.t) (b : Body) :
  reads_and_updates
    (trace (submitTurnStream API_BASE_URL JSON_parse sessionId audio
              (inr (mkResponse true stx d (Some b)))))
  = (flat_map (fun chunk =>
                 Read :: map OnUpdate
                           (line_updates JSON_parse (JS.split JS.LF chunk)))
       (chunks b) ++ [Read])%list.
Proof.
  rewrite submitTurnStream_streaming. cbv zeta. cbn [trace fst].
  unfold reads_and_updates. cbn [filter]. rewrite filter_app. cbn [filter].
  rewrite app_nil_r.
  apply (read_loop_reads (chunks b) (ending b) None).
Qed.

(** C2, amended: when every chunk read holds whole frames, each frame is
    parsed once and its update handed to the handler, in arrival order,
    whatever the grouping of the frames into chunks and however the stream
    ends; the updates of a chunk are handed over before the next read. *)
Theorem whole_frames_are_dispatched_in_order
  (sessionId : string) (audio : Blob) (groups : list (list Frame))
  (ending : StreamEnd) :
  Forall (fun f => well_framed JSON_parse f = true) (concat groups) ->
  let run := submitTurnStream API_BASE_URL JSON_parse sessionId audio
               (streaming (map wire groups) ending) in
  map Some (updates (trace run))
  = map (fun f => JSON_parse (payload f)) (concat groups)
  /\ reads_and_updates (trace run)
     = (flat_map (fun group => Read :: map OnUpdate (frame_updates JSON_parse group))
          groups ++ [Read])%list.
Proof.
  intros Hframes run. subst run. unfold streaming. split.
  - rewrite updates_submitTurnStream. cbn [chunks].
    apply dispatched_groups. exact Hframes.
  - rewrite reads_submitTurnStream. cbn [chunks]. f_equal.
    assert (Hlines : Forall (fun f => no_LF (payload f) = true) (concat groups)).
    { eapply Forall_impl; [|exact Hframes]. intros f Hf.
      apply andb_prop in Hf. exact (proj1 Hf). }
    clear Hframes.
    induction groups as [|g groups IH]; [reflexivity|].
    cbn [concat] in Hlines. apply Forall_app in Hlines. destruct Hlines as [Hg Hrest].
    cbn [map flat_map]. rewrite (line_updates_frames g Hg), (IH Hrest). reflexivity.
Qed.


End Framing.

Lemma updates_In (u : StreamUpdate.t) (t : list Effect) :
  In u (updates t) <-> In (OnUpdate u) t.
Proof.
  induction t as [|ef t IH]; [tauto|].
  destruct ef; cbn; rewrite IH; split; intros H;
    try (right; exact H); try (destruct H as [H|H]; [discriminate|exact H]).
  - destruct H as [->|H]; [left; reflexivity|right; exact H].
  - destruct H as [[= ->]|H]; [left; reflexivity|right; exact H].
Qed.

Lemma reader_locked_released (t : list Effect) :
  reader_locked (t ++ [ReleaseLock; ClearTimeout]) = false.
Proof. unfold reader_locked. rewrite fold_left_app. reflexivity. Qed.

Section ClientClaims.

Variable API_BASE_URL : string.
Variable JSON_parse : string -> option StreamUpdate.t.

(** The outcome of a request that streams [b]. *)
Lemma outcome_submitTurnStream (sessionId : string) (audio : Blob)
  (stx : string) (d : JS.Exn + Value.t) (b : Body) :
  outcome (submitTurnStream API_BASE_URL JSON_parse sessionId audio
             (inr (mkResponse true stx d (Some b))))
  = match ending b with
    | Done =>
        match fold_left latest (dispatched JSON_parse (chunks b)) None with
        | Some r => inr r
        | None => inl (JS.Error missing_result_message)
        end
    | Rejects e =>
        inl (if String.eqb (JS.name e) "AbortError"
             then JS.Error timeout_message else e)
    end.
Proof.
  rewrite submitTurnStream_streaming. cbv zeta. cbn [outcome snd].
  destruct (read_loop_spec JSON_parse (chunks b) (ending b) None) as (Ho & _ & _).
  rewrite Ho. destruct (ending b); reflexivity.
Qed.

(** A call resolves only on a response that is ok and has a body. *)
Lemma resolved_has_body (sessionId : string) (audio : Blob) (net : FetchOutcome)
  (r : TurnResponse.t) :
  outcome (submitTurnStream API_BASE_URL JSON_parse sessionId audio net) = inr r ->
  exists stx d b, net = inr (mkResponse true stx d (Some b)).
Proof.
  destruct net as [e|[[|] stx d [b|]]].
  - unfold submitTurnStream. run_M.
    destruct (String.eqb (JS.name e) "AbortError"); run_M; discriminate.
  - intros _. exists stx, d, b. reflexivity.
  - unfold submitTurnStream. run_M.
    cbn [String.eqb JS.name JS.Error Ascii.eqb Bool.eqb]. run_M. discriminate.
  - unfold submitTurnStream. run_M.
    destruct (String.eqb _ "AbortError"); run_M; discriminate.
  - unfold submitTurnStream. run_M.
    destruct (String.eqb _ "AbortError"); run_M; discriminate.
Qed.

(** What becomes of the [throw] of line 113: the event has been handed to
    the handler, the error is logged by the [catch] of the same frame, and
    the iteration returns with the result it had. *)
Lemma error_event_is_caught (line : string) (data : StreamUpdate.t)
  (finalResult : option TurnResponse.t) :
  JS.startsWith frame_marker line = true ->
  JSON_parse (JS.slice 6 line) = Some data ->
  final_position data = None ->
  Status.eqb (StreamUpdate.status data) Status.error
  || JS.truthy (StreamUpdate.error data) = true ->
  for_line JSON_parse line finalResult
  = ([OnUpdate data;
      ConsoleError line
        (JS.Error (JS.or_else (StreamUpdate.error data) "Unknown error"))],
     inr finalResult).
Proof.
  intros Hmarker Hparse Hposition Herror.
  unfold for_line, try_frame.
  rewrite Hmarker, Hparse. run_M. rewrite Hposition, Herror. reflexivity.
Qed.

(** Once the stream has ended, the only rejection left is the missing
    result: what the [throw] of line 113 throws never leaves the loop. *)
Lemma rejection_after_the_end (sessionId : string) (audio : Blob)
  (stx : string) (d : JS.Exn + Value.t) (pending : list string) (e : JS.Exn) :
  outcome (submitTurnStream API_BASE_URL JSON_parse sessionId audio
             (inr (mkResponse true stx d (Some (mkBody pending Done))))) = inl e ->
  e = JS.Error missing_result_message.
Proof.
  rewrite outcome_submitTurnStream. cbn [ending chunks].
  destruct (fold_left latest _ None); congruence.
Qed.

(** C5: a stream that ends without an event of status complete carrying a
    position makes the call reject with the missing-result error. *)
Theorem stream_without_terminal_success_rejects
  (sessionId : string) (audio : Blob) (stx : string) (d : JS.Exn + Value.t) (b : Body) :
  Forall (fun u => terminal_success u = false)
    (updates (trace (submitTurnStream API_BASE_URL JSON_parse sessionId audio
                       (inr (mkResponse true stx d (Some b)))))) ->
  ending b = Done ->
  outcome (submitTurnStream API_BASE_URL JSON_parse sessionId audio
             (inr (mkResponse true stx d (Some b))))
  = inl (JS.Error missing_result_message).
Proof.
  rewrite updates_submitTurnStream, outcome_submitTurnStream.
  intros Hnone ->. rewrite (latest_none _ Hnone). reflexivity.
Qed.

(** The updates of a body around one of its lines. *)
Lemma dispatched_around (before after : list string) (chunk : string)
  (lines_before lines_after : list string) (line : string) (data : StreamUpdate.t) :
  JS.split JS.LF chunk = (lines_before ++ line :: lines_after)%list ->
  line_update JSON_parse line = Some data ->
  dispatched JSON_parse (before ++ chunk :: after)
  = ((dispatched JSON_parse before ++ line_updates JSON_parse lines_before)
       ++ data :: (line_updates JSON_parse lines_after ++ dispatched JSON_parse after))%list.
Proof.
  intros Hsplit Hline. unfold dispatched.
  rewrite flat_map_app. cbn [flat_map]. rewrite Hsplit.
  rewrite (line_updates_app JSON_parse lines_before (line :: lines_after)).
  change (line_updates JSON_parse (line :: lines_after))
    with ((match line_update JSON_parse line with
           | Some u => [u]
           | None => []
           end ++ line_updates JSON_parse lines_after)%list).
  rewrite Hline. cbn [app]. rewrite <- !app_assoc. reflexivity.
Qed.

(** C6: an event of status complete that carries a position sets the
    result to the Turn Result made of its transcript, its two moves and its
    position, with no move history; when such an event stands on a line of
    the response body and no later line holds another, the call hands the
    event to the handler and, the stream ended, resolves with that Turn
    Result; and whatever the call resolves with was built that way from an
    event on a line of the body, so its move list is empty. *)
Theorem complete_event_synthesizes_turn_result :
  (forall line data fen finalResult,
      JS.startsWith frame_marker line = true ->
      JSON_parse (JS.slice 6 line) = Some data ->
      StreamUpdate.status data = Status.complete ->
      StreamUpdate.fen data = Some fen ->
      fen <> "" ->
      for_line JSON_parse line finalResult
      = ([OnUpdate data],
         inr (Some (TurnResponse.mk (StreamUpdate.transcript data)
                      (StreamUpdate.user_move data)
                      (StreamUpdate.engine_move data) fen []))))
  /\ (forall sessionId audio stx d before chunk after
             lines_before line lines_after data fen,
         JS.split JS.LF chunk = (lines_before ++ line :: lines_after)%list ->
         JS.startsWith frame_marker line = true ->
         JSON_parse (JS.slice 6 line) = Some data ->
         StreamUpdate.status data = Status.complete ->
         StreamUpdate.fen data = Some fen ->
         fen <> "" ->
         Forall (fun u => terminal_success u = false)
           (line_updates JSON_parse lines_after) ->
         Forall (fun u => terminal_success u = false)
           (dispatched JSON_parse after) ->
         let run := submitTurnStream API_BASE_URL JSON_parse sessionId audio
                      (inr (mkResponse true stx d
                              (Some (mkBody (before ++ chunk :: after) Done)))) in
         In (OnUpdate data) (trace run)
         /\ outcome run
            = inr (TurnResponse.mk (StreamUpdate.transcript data)
                     (StreamUpdate.user_move data)
                     (StreamUpdate.engine_move data) fen []))
  /\ (forall sessionId audio net r,
         outcome (submitTurnStream API_BASE_URL JSON_parse sessionId audio net) = inr r ->
         TurnResponse.moves r = []
         /\ exists stx d b chunk line data,
             net = inr (mkResponse true stx d (Some b))
             /\ In chunk (chunks b)
             /\ In line (JS.split JS.LF chunk)
             /\ JS.startsWith frame_marker line = true
             /\ JSON_parse (JS.slice 6 line) = Some data
             /\ StreamUpdate.status data = Status.complete
             /\ StreamUpdate.fen data = Some (TurnResponse.fen r)
             /\ r = TurnResponse.mk (StreamUpdate.transcript data)
                      (StreamUpdate.user_move data)
                      (StreamUpdate.engine_move data) (TurnResponse.fen r) []).
Proof.
  assert (Hsyn : forall data fen,
             StreamUpdate.status data = Status.complete ->
             StreamUpdate.fen data = Some fen -> fen <> "" ->
             final_position data = Some fen).
  { intros data fen Hs Hf Hne. unfold final_position, JS.truthy_value, JS.truthy.
    rewrite Hs, Hf. cbn. apply String.eqb_neq in Hne. rewrite Hne. reflexivity. }
  split; [|split].
  - intros line data fen finalResult Hm Hp Hs Hf Hne.
    unfold for_line, try_frame. rewrite Hm, Hp. run_M.
    rewrite (Hsyn data fen Hs Hf Hne). reflexivity.
  - intros sessionId audio stx d before chunk after lines_before line lines_after
      data fen Hsplit Hm Hp Hs Hf Hne Hlines Hafter run.
    assert (Hline : line_update JSON_parse line = Some data).
    { unfold line_update. rewrite Hm. exact Hp. }
    pose proof (dispatched_around before after chunk lines_before lines_after line
                  data Hsplit Hline) as Hd.
    subst run. split.
    + apply updates_In. rewrite updates_submitTurnStream. cbn [chunks].
      rewrite Hd. apply in_or_app. right. left. reflexivity.
    + rewrite outcome_submitTurnStream. cbn [ending chunks]. rewrite Hd.
      erewrite latest_last; [reflexivity| |].
      * unfold synthesize. rewrite (Hsyn data fen Hs Hf Hne). reflexivity.
      * apply Forall_app. split; assumption.
  - intros sessionId audio net r Hr.
    destruct (resolved_has_body _ _ _ _ Hr) as (stx & d & b & ->).
    rewrite outcome_submitTurnStream in Hr.
    destruct (ending b); [|discriminate].
    destruct (fold_left latest _ None) as [r'|] eqn:Hfold; [|discriminate].
    injection Hr as ->.
    apply latest_some in Hfold. destruct Hfold as [Hfold|(data & Hin & Hd)];
      [discriminate|].
    destruct (synthesize_moves data r Hd) as (Hm & Hs & Hf & _ & Hr).
    split; [exact Hm|].
    unfold dispatched in Hin. apply in_flat_map in Hin.
    destruct Hin as (chunk & Hchunk & Hin).
    unfold line_updates in Hin. apply in_flat_map in Hin.
    destruct Hin as (line & Hline & Hin).
    unfold line_update in Hin.
    destruct (JS.startsWith frame_marker line) eqn:Hmarker; [|destruct Hin].
    destruct (JSON_parse (JS.slice 6 line)) as [data'|] eqn:Hparse; [|destruct Hin].
    destruct Hin as [->|[]].
    exists stx, d, b, chunk, line, data. repeat split; assumption.
Qed.

(** C9: whatever the request settles with, the reader holds no lock when
    the call is over; when a reader was obtained, the release comes after
    the last read, however the loop was left: the end of the stream, or a
    read that rejects with an error or with the abort of the request. *)
Theorem reader_lock_is_released_on_every_exit :
  (forall sessionId audio net,
      reader_locked
        (trace (submitTurnStream API_BASE_URL JSON_parse sessionId audio net)) = false)
  /\ (forall sessionId audio stx d pending fin,
         exists reads,
           trace (submitTurnStream API_BASE_URL JSON_parse sessionId audio
                    (inr (mkResponse true stx d (Some (mkBody pending fin)))))
           = ([SetTimeout timeout_ms;
              Fetch (turn_stream_url API_BASE_URL sessionId) audio;
              GetReader] ++ reads ++ [ReleaseLock; ClearTimeout])%list
           /\ Forall (fun ef => reading_effect ef = true) reads
           /\ In Read reads).
Proof.
  split.
  - intros sessionId audio [e|[[|] stx d [b|]]].
    + unfold submitTurnStream. run_M.
      destruct (String.eqb (JS.name e) "AbortError"); reflexivity.
    + rewrite submitTurnStream_streaming. cbv zeta. cbn [trace fst].
      rewrite !app_comm_cons. apply reader_locked_released.
    + reflexivity.
    + rewrite submitTurnStream_refused by reflexivity. reflexivity.
    + rewrite submitTurnStream_refused by reflexivity. reflexivity.
  - intros sessionId audio stx d pending fin.
    exists (trace (read_loop JSON_parse pending fin None)).
    rewrite submitTurnStream_streaming. cbv zeta. cbn [trace fst chunks ending app].
    split; [reflexivity|]. split.
    + apply (read_loop_spec JSON_parse pending fin None).
    + destruct pending; cbn [read_loop]; unfold bind, emit;
        [destruct fin|destruct (for_lines _ _ _) as [t [e|fr]];
                         [|destruct (read_loop _ _ _ _)]];
        left; reflexivity.
Qed.

(** C10: an event of status complete without a position is handed to the
    handler and leaves the result as it was; if the stream then ends with no
    event of status complete carrying a position, the call rejects with the
    missing-result error. *)
Theorem complete_without_position_is_not_a_result
  (sessionId : string) (audio : Blob) (stx : string) (d : JS.Exn + Value.t) (b : Body)
  (chunk line : string) (data : StreamUpdate.t) :
  In chunk (chunks b) ->
  In line (JS.split JS.LF chunk) ->
  JS.startsWith frame_marker line = true ->
  JSON_parse (JS.slice 6 line) = Some data ->
  StreamUpdate.status data = Status.complete ->
  JS.truthy (StreamUpdate.fen data) = false ->
  let run := submitTurnStream API_BASE_URL JSON_parse sessionId audio
               (inr (mkResponse true stx d (Some b))) in
  (forall finalResult,
      In (OnUpdate data) (trace (for_line JSON_parse line finalResult))
      /\ outcome (for_line JSON_parse line finalResult) = inr finalResult)
  /\ In (OnUpdate data) (trace run)
  /\ (ending b = Done ->
      Forall (fun u => terminal_success u = false) (updates (trace run)) ->
      outcome run = inl (JS.Error missing_result_message)).
Proof.
  intros Hchunk Hline Hm Hp Hs Hf run.
  assert (Hlu : line_update JSON_parse line = Some data).
  { unfold line_update. rewrite Hm. exact Hp. }
  assert (Hnot : synthesize data = None).
  { apply synthesize_terminal. unfold terminal_success. rewrite Hf.
    apply andb_false_r. }
  split; [|split].
  - intros finalResult.
    destruct (for_line_spec JSON_parse line finalResult) as (Ho & Hu & _).
    rewrite Hlu in Ho, Hu. split.
    + apply updates_In. rewrite Hu. left. reflexivity.
    + rewrite Ho. unfold latest. rewrite Hnot. reflexivity.
  - apply updates_In. subst run. rewrite updates_submitTurnStream.
    unfold dispatched. apply in_flat_map. exists chunk. split; [exact Hchunk|].
    unfold line_updates. apply in_flat_map. exists line. split; [exact Hline|].
    rewrite Hlu. left. reflexivity.
  - intros Hend Hnone. subst run.
    rewrite updates_submitTurnStream in Hnone.
    rewrite outcome_submitTurnStream, Hend, (latest_none _ Hnone). reflexivity.
Qed.

End ClientClaims.

(** ** The deadline

    The timer and the abort it triggers belong to the platform; what the
    function does about them is in its trace and in its outer [catch]. *)

Section Deadline.

Variable API_BASE_URL : string.
Variable JSON_parse : string -> option StreamUpdate.t.

(** X8: the timer is armed with the fixed delay before anything else and
    cleared after everything else, on every path. *)
Lemma timer_is_armed_first_and_cleared_last
  (sessionId : string) (audio : Blob) (net : FetchOutcome) :
  exists between,
    trace (submitTurnStream API_BASE_URL JSON_parse sessionId audio net)
    = (SetTimeout timeout_ms :: between ++ [ClearTimeout])%list
    /\ Forall (fun ef => match ef with
                         | SetTimeout _ | ClearTimeout => False
                         | _ => True
                         end) between.
Proof.
  destruct net as [e|[[|] stx d [b|]]].
  - exists [Fetch (turn_stream_url API_BASE_URL sessionId) audio].
    unfold submitTurnStream. run_M.
    destruct (String.eqb (JS.name e) "AbortError"); run_M;
      (split; [reflexivity|repeat constructor]).
  - exists (Fetch (turn_stream_url API_BASE_URL sessionId) audio :: GetReader
              :: trace (read_loop JSON_parse (chunks b) (ending b) None)
              ++ [ReleaseLock])%list.
    rewrite submitTurnStream_streaming. cbv zeta. cbn [trace fst app].
    rewrite <- app_assoc. split; [reflexivity|].
    do 2 (constructor; [exact I|]).
    apply Forall_app. split; [|repeat constructor].
    destruct (read_loop_spec JSON_parse (chunks b) (ending b) None) as (_ & _ & Hr).
    eapply Forall_impl; [|exact Hr].
    intros ef Hef. destruct ef; try exact I; discriminate Hef.
  - exists [Fetch (turn_stream_url API_BASE_URL sessionId) audio].
    split; [reflexivity|repeat constructor].
  - exists [Fetch (turn_stream_url API_BASE_URL sessionId) audio; ReadJson].
    rewrite submitTurnStream_refused by reflexivity.
    split; [reflexivity|repeat constructor].
  - exists [Fetch (turn_stream_url API_BASE_URL sessionId) audio; ReadJson].
    rewrite submitTurnStream_refused by reflexivity.
    split; [reflexivity|repeat constructor].
Qed.

(** X9: an aborted request, before or after the response has come,
    rejects with the timeout message. *)
Lemma aborted_request_rejects_with_the_timeout_message
  (sessionId : string) (audio : Blob) :
  outcome (submitTurnStream API_BASE_URL JSON_parse sessionId audio (inl AbortError))
  = inl (JS.Error timeout_message)
  /\ forall stx d pending,
      outcome (submitTurnStream API_BASE_URL JSON_parse sessionId audio
                 (inr (mkResponse true stx d
                         (Some (mkBody pending (Rejects AbortError))))))
      = inl (JS.Error timeout_message).
Proof.
  split; [reflexivity|].
  intros stx d pending. rewrite outcome_submitTurnStream. reflexivity.
Qed.

(** C7, amended: one timer is armed, with the fixed delay of 15000
    milliseconds and before the request is sent, and it is cleared once,
    last, on every path.  A request that the abort cuts short while it is
    pending, or while the body of an accepted response is read, rejects
    with the timeout message; cut short while the body of a refused
    response is read, it rejects with the status text: that read has its
    own catch.  And a call that rejects with the timeout message was
    aborted, or the network failed with an error of that very message (a
    refused response whose detail is the text, say): the message tells
    the timeout from every failure whose own text is another. *)
Theorem timeout_rejects_with_its_message :
  timeout_ms = 15000%N
  /\ (forall sessionId audio net,
         exists between,
           trace (submitTurnStream API_BASE_URL JSON_parse sessionId audio net)
           = (SetTimeout timeout_ms
                :: Fetch (turn_stream_url API_BASE_URL sessionId) audio
                :: between ++ [ClearTimeout])%list
           /\ Forall (fun ef => match ef with
                                | SetTimeout _ | ClearTimeout => False
                                | _ => True
                                end) between)
  /\ (forall sessionId audio net,
         aborted net = true ->
         outcome (submitTurnStream API_BASE_URL JSON_parse sessionId audio net)
         = inl (JS.Error timeout_message))
  /\ (forall sessionId audio response e,
         ok response = false ->
         json response = inl e ->
         outcome (submitTurnStream API_BASE_URL JSON_parse sessionId audio
                    (inr response))
         = inl (JS.Error (statusText response)))
  /\ (forall sessionId audio net,
         outcome (submitTurnStream API_BASE_URL JSON_parse sessionId audio net)
         = inl (JS.Error timeout_message) ->
         aborted net = true \/ passed_on net = Some (JS.Error timeout_message)).
Proof.
  split; [reflexivity|]. split; [|split; [|split]].
  - intros sessionId audio [e|[[|] stx d [b|]]].
    + exists []. unfold submitTurnStream. run_M.
      destruct (String.eqb (JS.name e) "AbortError"); run_M;
        (split; [reflexivity|constructor]).
    + exists (GetReader :: trace (read_loop JSON_parse (chunks b) (ending b) None)
                ++ [ReleaseLock])%list.
      rewrite submitTurnStream_streaming. cbv zeta. cbn [trace fst app].
      rewrite <- app_assoc. split; [reflexivity|].
      constructor; [exact I|].
      apply Forall_app. split; [|repeat constructor].
      destruct (read_loop_spec JSON_parse (chunks b) (ending b) None) as (_ & _ & Hr).
      eapply Forall_impl; [|exact Hr].
      intros ef Hef. destruct ef; try exact I; discriminate Hef.
    + exists []. split; [reflexivity|constructor].
    + exists [ReadJson]. rewrite submitTurnStream_refused by reflexivity.
      split; [reflexivity|repeat constructor].
    + exists [ReadJson]. rewrite submitTurnStream_refused by reflexivity.
      split; [reflexivity|repeat constructor].
  - intros sessionId audio [e|[[|] stx d [[pending [|e]]|]]] Ha;
      cbn in Ha; try discriminate Ha.
    + unfold submitTurnStream. run_M. rewrite Ha. reflexivity.
    + rewrite outcome_submitTurnStream. cbn [ending]. rewrite Ha. reflexivity.
  - intros sessionId audio response e Hok Hjson.
    rewrite submitTurnStream_refused by exact Hok.
    cbn [outcome snd]. unfold refusal. rewrite Hjson. reflexivity.
  - intros sessionId audio [e|[[|] stx d [[pending [|e]]|]]];
      rewrite ?outcome_submitTurnStream, ?submitTurnStream_refused by reflexivity;
      cbn [ending chunks outcome snd aborted passed_on ok body negb andb].
    + unfold submitTurnStream. run_M.
      destruct (String.eqb (JS.name e) "AbortError"); run_M; intros H;
        [left; reflexivity|right; congruence].
    + destruct (fold_left latest _ None); intros H; discriminate H.
    + destruct (String.eqb (JS.name e) "AbortError"); intros H;
        [left; reflexivity|right; congruence].
    + intros H. discriminate H.
    + intros H. right. congruence.
    + intros H. right. congruence.
    + intros H. right. congruence.
Qed.

End Deadline.

(** ** The turn controller *)

(** Runs the combinators of [App.Act] on what is already a value. *)
Ltac run_Act :=
  cbv beta iota zeta delta
    [App.abind App.atry_catch App.atry_finally App.set App.aret App.athrow
     App.aemit App.idle App.speakMove App.san_of
     bind emit ret throw
     App.setSession App.setStatus App.setIsLoading App.setIsSubmitting
     App.setError App.setSkillLevel App.setGameEnded App.setIsRecording
     App.setRecorderError
     App.session App.status App.isLoading App.isSubmitting App.error
     App.skillLevel App.gameEnded App.isRecording
     App.recorderError App.renderedRecorderError];
  cbn [outcome trace fst snd app].

(** C4, amended: each of the six progress statuses sets a status text that
    is not empty; the error status sets none and leaves the state as it
    was. *)
Theorem progress_statuses_set_a_message (update : StreamUpdate.t) (s : App.State) :
  (StreamUpdate.status update <> Status.error ->
   exists text,
     App.status (App.handleStreamUpdate update s) = Some text /\ text <> "")
  /\ (StreamUpdate.status update = Status.error ->
      App.handleStreamUpdate update s = s).
Proof.
  unfold App.handleStreamUpdate.
  destruct (StreamUpdate.status update); split; intros H;
    try discriminate H; try contradiction;
    try (eexists; split; [reflexivity|cbn; discriminate]).
  reflexivity.
Qed.

Lemma handleStreamUpdate_keeps (update : StreamUpdate.t) (s : App.State) :
  keeps_all_but_status s (App.handleStreamUpdate update s).
Proof.
  unfold App.handleStreamUpdate, keeps_all_but_status.
  destruct (StreamUpdate.status update); cbn; tauto.
Qed.

Lemma run_handler_keeps (t : list Effect) (s : App.State) :
  keeps_all_but_status s (App.run_handler t s).
Proof.
  unfold App.run_handler. revert s.
  induction (updates t) as [|u us IH]; intros s; cbn [fold_left].
  - unfold keeps_all_but_status. tauto.
  - specialize (IH (App.handleStreamUpdate u s)).
    pose proof (handleStreamUpdate_keeps u s) as H.
    unfold keeps_all_but_status in *. intuition congruence.
Qed.

(** The game-ending conditions never touch the session, the recorder or
    the submitting flag, and they never clear the game-ended flag. *)
Lemma announce_keeps (id : string) (turn : TurnResponse.t) (s : App.State) :
  App.session (fst (App.announce id turn s)) = App.session s
  /\ App.isRecording (fst (App.announce id turn s)) = App.isRecording s
  /\ App.isSubmitting (fst (App.announce id turn s)) = App.isSubmitting s.
Proof.
  unfold App.announce.
  destruct (TurnResponse.engine_move turn) as [em|]; run_Act; [|tauto].
  destruct (TurnResponse.user_move turn) as [um|];
    destruct (String.eqb (Move.san em) "Checkmate!");
    [| |run_Act; tauto|]; run_Act; try tauto;
    destruct (String.eqb (Move.san em) "Stalemate"); run_Act; try tauto;
    destruct (JS.endsWith "#" (Move.san em)); run_Act; try tauto;
    destruct (JS.includes "Stalemate" (Move.san em)); run_Act; tauto.
Qed.


Section Controller.

Variable API_BASE_URL : string.
Variable JSON_parse : string -> option StreamUpdate.t.

(** Starting a game clears the game-ended flag, whether or not the
    session is created. *)
Lemma startNewGame_clears (created : JS.Exn + SessionState.t) (s : App.State) :
  App.gameEnded (fst (App.startNewGame created s)) = false.
Proof.
  unfold App.startNewGame, App.createSession.
  destruct created as [e|c]; reflexivity.
Qed.

(** A render changes nothing but the error shown. *)
Lemma render_keeps (s : App.State) :
  App.session (App.render s) = App.session s
  /\ App.status (App.render s) = App.status s
  /\ App.isLoading (App.render s) = App.isLoading s
  /\ App.isSubmitting (App.render s) = App.isSubmitting s
  /\ App.skillLevel (App.render s) = App.skillLevel s
  /\ App.gameEnded (App.render s) = App.gameEnded s
  /\ App.isRecording (App.render s) = App.isRecording s
  /\ App.recorderError (App.render s) = App.recorderError s.
Proof.
  unfold App.render. cbv zeta.
  destruct (App.same _ _); [repeat split|].
  destruct (JS.truthy _); repeat split.
Qed.

Lemma frozen_render (s : App.State) : App.frozen (App.render s) = App.frozen s.
Proof.
  destruct (render_keeps s) as (_ & _ & _ & Hsub & _ & Hend & Hrec & _).
  unfold App.frozen. rewrite Hsub, Hend, Hrec. reflexivity.
Qed.

Lemma beginRecording_render (mic : JS.Exn + unit) (s : App.State) :
  App.beginRecording mic s
  = (App.render (fst (App.handleStartRecording mic s)),
     snd (App.handleStartRecording mic s)).
Proof.
  unfold App.beginRecording. destruct (App.handleStartRecording mic s). reflexivity.
Qed.



(** A turn that went through, step by step: the run of the consumer with
    the handler applied to its updates, the read of the session, then the
    game-ending conditions. *)
Lemma handleStopRecording_resolved (env : App.TurnEnv) (s : App.State)
  (id : string) (blob : Blob) (turn : TurnResponse.t) :
  App.recording id s = true ->
  App.captured env = Some blob ->
  outcome (submitTurnStream API_BASE_URL JSON_parse id blob (App.net env)) = inr turn ->
  let m := submitTurnStream API_BASE_URL JSON_parse id blob (App.net env) in
  let s1 := App.run_handler (trace m)
              (App.setIsRecording false
                 (App.setStatus (Some "Uploading audio...")
                    (App.setIsSubmitting true s))) in
  App.handleStopRecording API_BASE_URL JSON_parse env s
  = match App.refetch env with
    | inl e =>
        (App.setIsSubmitting false
           (App.setStatus None (App.setError (Some (JS.message e)) s1)),
         ((RecorderStop :: trace m ++ [GetSession id])%list, inr tt))
    | inr updated =>
        let s2 := App.setError None (App.setSession (Some updated) s1) in
        match App.announce id turn s2 with
        | (s3, (t, inr _)) =>
            (App.setIsSubmitting false s3,
             ((RecorderStop :: trace m ++ GetSession id :: t)%list, inr tt))
        | (s3, (t, inl e)) =>
            (App.setIsSubmitting false
               (App.setStatus None (App.setError (Some (JS.message e)) s3)),
             ((RecorderStop :: trace m ++ GetSession id :: t)%list, inr tt))
        end
    end.
Proof.
  destruct s as [sess st ld sub err sk ge rec rerr shown].
  unfold App.recording, App.handleStopRecording.
  cbn [App.isRecording App.isSubmitting].
  intros Hrec Hblob Hturn.
  destruct (JS.truthy_value (App.sessionId _)) as [id'|]; [|discriminate].
  apply andb_prop in Hrec. destruct Hrec as [Hrec Hsub].
  apply andb_prop in Hrec. destruct Hrec as [Hid Hrec].
  apply negb_true_iff in Hsub. apply String.eqb_eq in Hid. subst id' rec sub.
  rewrite Hblob. cbn [negb orb].
  unfold App.stop, App.awaitSubmitTurnStream, App.getSession. run_Act.
  revert Hturn.
  generalize (submitTurnStream API_BASE_URL JSON_parse id blob (App.net env)).
  intros [t [e|turn']] Hturn; cbn [outcome snd] in Hturn; [discriminate|].
  injection Hturn as ->. run_Act.
  destruct (App.refetch env) as [e|updated]; run_Act.
  - rewrite !app_nil_r. reflexivity.
  - destruct (App.announce id turn _) as [s3 [t3 [e|[]]]]; run_Act;
      rewrite !app_nil_r, <- ?app_assoc; reflexivity.
Qed.

End Controller.

Section ControllerClaims.

Variable API_BASE_URL : string.
Variable JSON_parse : string -> option StreamUpdate.t.

(** C8: once [submitTurnStream] has resolved, the controller calls
    [getSession] for the same session, after the whole of the stream; the
    session it then shows is the fetched one, whatever the Turn Result
    holds, and the one it showed before when the fetch fails. *)
Theorem session_view_is_replaced_by_the_fetched_session
  (env : App.TurnEnv) (s : App.State) (id : string) (blob : Blob)
  (turn : TurnResponse.t) :
  App.recording id s = true ->
  App.captured env = Some blob ->
  outcome (submitTurnStream API_BASE_URL JSON_parse id blob (App.net env)) = inr turn ->
  let done := App.handleStopRecording API_BASE_URL JSON_parse env s in
  (exists after,
      trace (snd done)
      = (RecorderStop
           :: trace (submitTurnStream API_BASE_URL JSON_parse id blob (App.net env))
           ++ GetSession id :: after)%list)
  /\ match App.refetch env with
     | inr updated => App.session (fst done) = Some updated
     | inl _ => App.session (fst done) = App.session s
     end.
Proof.
  intros Hrec Hblob Hturn done. subst done.
  rewrite (handleStopRecording_resolved API_BASE_URL JSON_parse env s id blob turn
             Hrec Hblob Hturn).
  cbv zeta.
  pose proof (run_handler_keeps
                (trace (submitTurnStream API_BASE_URL JSON_parse id blob (App.net env)))
                (App.setIsRecording false
                   (App.setStatus (Some "Uploading audio...")
                      (App.setIsSubmitting true s)))) as (Hsession & _).
  destruct (App.refetch env) as [e|updated].
  - cbn [fst snd trace]. split; [exists []; reflexivity|].
    cbn [App.session App.setIsSubmitting App.setStatus App.setError] in *.
    rewrite Hsession. reflexivity.
  - pose proof (announce_keeps id turn
                  (App.setError None
                     (App.setSession (Some updated)
                        (App.run_handler
                           (trace (submitTurnStream API_BASE_URL JSON_parse id blob
                                     (App.net env)))
                           (App.setIsRecording false
                              (App.setStatus (Some "Uploading audio...")
                                 (App.setIsSubmitting true s)))))))
      as (Hkept & _).
    destruct (App.announce id turn _) as [s3 [t3 [e|[]]]];
      cbn [fst snd trace] in *; (split; [exists t3; reflexivity|]);
      cbn [App.session App.setIsSubmitting App.setStatus App.setError
           App.setSession] in *;
      exact Hkept.
Qed.


End ControllerClaims.

(** ** Runs on concrete server output *)

Import Examples.

(** C2 as stated fails: the frame of [cut_frame] is a well-formed frame
    whose bytes arrive in two chunks, and no update is dispatched, while the
    same bytes in one chunk dispatch one. *)
Lemma cut_frame_is_never_dispatched :
  updates (trace (submitTurnStream api Wire.parseStreamUpdate "s1" "audio"
                    (streaming cut_frame Done))) = []
  /\ updates (trace (submitTurnStream api Wire.parseStreamUpdate "s1" "audio"
                       (streaming [wire [sse transcribing_payload]] Done)))
     = [transcribing_update]
  /\ ~ every_frame_is_dispatched api Wire.parseStreamUpdate
        [sse transcribing_payload] cut_frame.
Proof.
  split; [vm_compute; reflexivity|]. split; [vm_compute; reflexivity|].
  intros Hclaim.
  assert (Hbytes : join cut_frame = wire [sse transcribing_payload])
    by (vm_compute; reflexivity).
  assert (Hframes : Forall (fun f => well_framed Wire.parseStreamUpdate f = true)
                      [sse transcribing_payload])
    by (repeat constructor).
  specialize (Hclaim Hbytes Hframes). vm_compute in Hclaim. discriminate Hclaim.
Qed.

Lemma whole_frames_witness :
  map Some
    (updates (trace (submitTurnStream api Wire.parseStreamUpdate "s1" "audio"
                       (streaming
                          (map wire [[sse transcribing_payload; sse player_moved_payload];
                                     []; [sse complete_payload]])
                          Done))))
  = map (fun f => Wire.parseStreamUpdate (payload f))
      [sse transcribing_payload; sse player_moved_payload; sse complete_payload].
Proof.
  refine (proj1 (whole_frames_are_dispatched_in_order
                   api Wire.parseStreamUpdate "s1" "audio"
                   [[sse transcribing_payload; sse player_moved_payload];
                    []; [sse complete_payload]] Done _)).
  repeat constructor.
Defined.

(** C1 (the code departs from it): an event of status error is handed to
    the handler, the error thrown for it is caught by the [catch] of the
    same frame and logged, and the loop goes on.  A stream that ends after
    it rejects with the missing-result error, not with the event's message;
    a stream that goes on to a terminal success resolves. *)
Theorem error_event_is_logged_and_consumption_goes_on :
  let failed :=
    submitTurnStream api Wire.parseStreamUpdate "s1" "audio"
      (streaming [wire [sse transcribing_payload; sse error_payload]] Done) in
  let recovered :=
    submitTurnStream api Wire.parseStreamUpdate "s1" "audio"
      (streaming [wire [sse error_payload]; wire [sse complete_payload]] Done) in
  updates (trace failed) = [transcribing_update; error_update]
  /\ In (ConsoleError (frame_marker ++ error_payload)
           (JS.Error "Could not understand move")) (trace failed)
  /\ outcome failed = inl (JS.Error missing_result_message)
  /\ outcome recovered = inr complete_turn.
Proof.
  cbv zeta. split; [|split; [|split]].
  - vm_compute. reflexivity.
  - vm_compute. do 6 right. left. reflexivity.
  - vm_compute. reflexivity.
  - vm_compute. reflexivity.
Qed.

Lemma stream_without_terminal_success_witness :
  outcome (submitTurnStream api Wire.parseStreamUpdate "s1" "audio"
             (inr (mkResponse true "OK" (inl SyntaxError)
                     (Some (mkBody [wire [sse transcribing_payload];
                                    wire [sse player_moved_payload]] Done)))))
  = inl (JS.Error missing_result_message).
Proof.
  apply (stream_without_terminal_success_rejects api Wire.parseStreamUpdate "s1" "audio").
  - vm_compute. repeat constructor.
  - reflexivity.
Defined.

Lemma complete_event_witness :
  outcome (submitTurnStream api Wire.parseStreamUpdate "s1" "audio"
             (inr (mkResponse true "OK" (inl SyntaxError)
                     (Some (mkBody [wire [sse transcribing_payload];
                                    wire [sse complete_payload]] Done)))))
  = inr complete_turn.
Proof.
  refine (proj2 (proj1 (proj2 (complete_event_synthesizes_turn_result
                                 api Wire.parseStreamUpdate))
                   "s1" "audio" "OK" (inl SyntaxError)
                   [wire [sse transcribing_payload]] (wire [sse complete_payload]) []
                   [] (frame_marker ++ complete_payload) [EmptyString; EmptyString]
                   complete_update
                   "rnbqkbnr/pppp1ppp/8/4p3/4P3/8/PPPP1PPP/RNBQKBNR w KQkq - 0 2"
                   _ _ _ _ _ _ _ _)).
  - vm_compute. reflexivity.
  - reflexivity.
  - vm_compute. reflexivity.
  - reflexivity.
  - reflexivity.
  - discriminate.
  - vm_compute. constructor.
  - constructor.
Defined.

Lemma complete_without_position_witness :
  In (OnUpdate complete_without_fen_update)
    (trace (submitTurnStream api Wire.parseStreamUpdate "s1" "audio"
              (inr (mkResponse true "OK" (inl SyntaxError)
                      (Some (mkBody [wire [sse complete_without_fen_payload]] Done))))))
  /\ outcome (submitTurnStream api Wire.parseStreamUpdate "s1" "audio"
                (inr (mkResponse true "OK" (inl SyntaxError)
                        (Some (mkBody [wire [sse complete_without_fen_payload]] Done)))))
     = inl (JS.Error missing_result_message).
Proof.
  destruct (complete_without_position_is_not_a_result api Wire.parseStreamUpdate
              "s1" "audio" "OK" (inl SyntaxError)
              (mkBody [wire [sse complete_without_fen_payload]] Done)
              (wire [sse complete_without_fen_payload])
              (frame_marker ++ complete_without_fen_payload)
              complete_without_fen_update)
    as (_ & Hin & Hout).
  - left. reflexivity.
  - vm_compute. left. reflexivity.
  - reflexivity.
  - vm_compute. reflexivity.
  - reflexivity.
  - reflexivity.
  - split; [exact Hin|]. apply Hout; [reflexivity|].
    vm_compute. repeat constructor.
Defined.

Lemma session_view_witness :
  App.session (fst (App.handleStopRecording api Wire.parseStreamUpdate ordinary listening))
  = Some after_mate.
Proof.
  refine (proj2 (session_view_is_replaced_by_the_fetched_session
                   api Wire.parseStreamUpdate ordinary listening "s1" "audio"
                   complete_turn _ _ _));
    vm_compute; reflexivity.
Defined.



(** C7 as stated fails twice.  A response that is refused with the words
    of the timeout makes the call reject as a timeout does, with no abort
    anywhere.  And an abort that comes while the body of a refused
    response is read is not reported as a timeout: the call rejects with
    the status text. *)
Lemma timeout_message_is_shared :
  outcome (submitTurnStream api Wire.parseStreamUpdate "s1" "audio"
             (inr gateway_timeout))
  = inl (JS.Error timeout_message)
  /\ aborted (inr gateway_timeout) = false
  /\ ~ timeout_message_is_distinct api Wire.parseStreamUpdate (inr gateway_timeout)
  /\ outcome (submitTurnStream api Wire.parseStreamUpdate "s1" "audio"
                (inr refusal_cut_short))
     = inl (JS.Error "Bad Gateway")
  /\ ~ abort_is_reported api Wire.parseStreamUpdate (inr refusal_cut_short).
Proof.
  split; [reflexivity|]. split; [reflexivity|]. split.
  { intros Hclaim.
    assert (Ha : aborted (inr gateway_timeout) = true) by (apply Hclaim; reflexivity).
    discriminate Ha. }
  split; [reflexivity|].
  intros Hclaim.
  assert (Ha : outcome (submitTurnStream api Wire.parseStreamUpdate "s1" "audio"
                          (inr refusal_cut_short))
               = inl (JS.Error timeout_message)) by (apply Hclaim; reflexivity).
  discriminate Ha.
Qed.

Lemma progress_statuses_witness :
  exists text,
    App.status (App.handleStreamUpdate complete_update App.initial) = Some text
    /\ text <> "".
Proof.
  apply (proj1 (progress_statuses_set_a_message complete_update App.initial)).
  discriminate.
Defined.

(** C4 as stated fails at the error status: it is one of the seven, and
    the handler sets no status text for it. *)
Lemma error_status_sets_no_message :
  In Status.error Status.all
  /\ App.status (App.handleStreamUpdate error_update App.initial) = None
  /\ ~ status_sets_a_message Status.error.
Proof.
  split; [vm_compute; tauto|]. split; [reflexivity|].
  intros Hclaim.
  destruct (Hclaim error_update App.initial eq_refl) as (text & Hset & _).
  discriminate Hset.
Qed.

(** * Further results *)

(** ** The highlighted squares *)

Lemma substring_length (s : string) :
  forall n m, n + m <= String.length s -> String.length (substring n m s) = m.
Proof.
  induction s as [|c s IH]; intros n m H; cbn [String.length] in H.
  - destruct n, m; try lia; reflexivity.
  - destruct n as [|n]; cbn [substring].
    + destruct m as [|m]; [reflexivity|]. cbn [String.length].
      rewrite (IH 0 m); lia.
    + apply IH. lia.
Qed.

Lemma last_two_length {A : Type} (l : list A) : length (last_two l) <= 2.
Proof. unfold last_two. rewrite length_skipn. lia. Qed.

Lemma last_two_app {A : Type} (older : list A) (before last : A) :
  last_two (older ++ [before; last]) = [before; last].
Proof.
  unfold last_two. rewrite length_app. cbn [length].
  replace (length older + 2 - 2) with (length older + 0) by lia.
  rewrite skipn_app, Nat.add_0_r, skipn_all.
  replace (length older - length older) with 0 by lia. reflexivity.
Qed.

Lemma move_squares_pairs (move : MoveRecord.t) :
  Forall (fun square => String.length square = 2) (move_squares move).
Proof.
  unfold move_squares. cbv zeta.
  destruct (String.length (MoveRecord.uci move) <? 4) eqn:H; [constructor|].
  apply Nat.ltb_ge in H.
  repeat constructor; apply substring_length; lia.
Qed.

Lemma squares_pairs (moves : list MoveRecord.t) :
  Forall (fun square => String.length square = 2) (flat_map move_squares moves).
Proof.
  induction moves as [|move moves IH]; [constructor|].
  cbn [flat_map]. apply Forall_app. split; [apply move_squares_pairs|exact IH].
Qed.

Lemma filter_keeps_pairs (squares : list string) :
  Forall (fun square => String.length square = 2) squares ->
  filter (fun square => JS.truthy (Some square)) squares = squares.
Proof.
  induction 1 as [|square squares Hsq _ IH]; [reflexivity|].
  cbn [filter]. rewrite IH.
  destruct square; [discriminate Hsq|reflexivity].
Qed.

Lemma computeHighlights_squares (moves : list MoveRecord.t) :
  computeHighlights moves = flat_map move_squares (last_two moves).
Proof.
  unfold computeHighlights.
  destruct moves as [|move moves]; [reflexivity|].
  cbn [length Nat.eqb]. apply filter_keeps_pairs, squares_pairs.
Qed.

Lemma move_squares_length (move : MoveRecord.t) : length (move_squares move) <= 2.
Proof.
  unfold move_squares. cbv zeta.
  destruct (String.length (MoveRecord.uci move) <? 4); cbn; lia.
Qed.

(** X5: at most four squares are highlighted, and each one is named by two
    characters: the final [filter(Boolean)] never has anything to drop. *)
Theorem computeHighlights_gives_at_most_four_squares (moves : list MoveRecord.t) :
  length (computeHighlights moves) <= 4
  /\ Forall (fun square => String.length square = 2) (computeHighlights moves).
Proof.
  rewrite computeHighlights_squares. split; [|apply squares_pairs].
  pose proof (last_two_length moves) as H.
  destruct (last_two moves) as [|m1 [|m2 [|m3 rest]]]; cbn [length] in H;
    cbn [flat_map]; rewrite ?length_app; cbn [length];
    try pose proof (move_squares_length m1);
    try pose proof (move_squares_length m2); lia.
Qed.

(** X6: only the last two moves count: with two moves or more, the highlights
    are the squares of the move before the last, then those of the last. *)
Theorem computeHighlights_reads_the_last_two_moves
  (older : list MoveRecord.t) (before last : MoveRecord.t) :
  computeHighlights (older ++ [before; last])
  = (move_squares before ++ move_squares last)%list.
Proof.
  rewrite computeHighlights_squares, last_two_app. cbn [flat_map].
  rewrite app_nil_r. reflexivity.
Qed.

(** ** Splitting on a character *)

Lemma lacks_append (sep : ascii) (a b : string) :
  lacks sep (a ++ b) = lacks sep a && lacks sep b.
Proof.
  induction a as [|x a IH]; cbn; [reflexivity|].
  rewrite IH, andb_assoc. reflexivity.
Qed.

Lemma split_whole (sep : ascii) (a : string) :
  lacks sep a = true -> JS.split sep a = [a].
Proof.
  induction a as [|x a IH]; cbn [lacks JS.split]; intros H; [reflexivity|].
  apply andb_prop in H. destruct H as [Hx Ha].
  apply negb_true_iff in Hx. rewrite Hx, (IH Ha). reflexivity.
Qed.

Lemma split_first (sep : ascii) (a rest : string) :
  lacks sep a = true ->
  JS.split sep (a ++ String sep rest) = a :: JS.split sep rest.
Proof.
  induction a as [|x a IH]; cbn [lacks append JS.split]; intros H.
  - rewrite Ascii.eqb_refl. reflexivity.
  - apply andb_prop in H. destruct H as [Hx Ha].
    apply negb_true_iff in Hx. rewrite Hx, (IH Ha). reflexivity.
Qed.

(** ** The layout of the board *)

Section BoardFacts.

Import Chessboard.

Lemma rank_squares_length (rank : string) : length (rank_squares rank) = 8.
Proof.
  unfold rank_squares. cbv zeta.
  rewrite length_firstn, length_app, repeat_length. lia.
Qed.

Lemma parseFen_length (fen : option string) : length (parseFen fen) = 8.
Proof.
  unfold parseFen.
  destruct (JS.truthy_value fen) as [text|]; [|reflexivity].
  cbv zeta.
  destruct (length (JS.split "/" (hd "" (JS.split " " text))) =? 8) eqn:Hranks;
    cbn [negb]; [|reflexivity].
  apply Nat.eqb_eq in Hranks. rewrite length_map. exact Hranks.
Qed.

Lemma parseFen_rows (fen : option string) :
  Forall (fun row => length row = 8) (parseFen fen).
Proof.
  assert (Hempty : Forall (fun row : list Square => length row = 8) empty_board).
  { repeat constructor. }
  unfold parseFen.
  destruct (JS.truthy_value fen) as [text|]; [|exact Hempty].
  cbv zeta.
  destruct (negb _); [exact Hempty|].
  apply Forall_map. apply Forall_forall. intros rank _.
  apply rank_squares_length.
Qed.

(** X1: the layout always has eight rows of eight squares, whatever the
    text: a missing, short, long or malformed position never gives a
    board of another shape. *)
Theorem parseFen_is_eight_by_eight (fen : option string) :
  length (parseFen fen) = 8
  /\ Forall (fun row => length row = 8) (parseFen fen).
Proof.
  split.
  - apply parseFen_length.
  - apply parseFen_rows.
Qed.

(** The layout of a text that is not empty, from its first field. *)
Lemma parseFen_of_placement (text placement : string) :
  text <> EmptyString ->
  hd EmptyString (JS.split " " text) = placement ->
  parseFen (Some text)
  = if negb (length (JS.split "/" placement) =? 8) then empty_board
    else map rank_squares (JS.split "/" placement).
Proof.
  intros Htext Hfield. apply String.eqb_neq in Htext.
  unfold parseFen, JS.truthy_value, JS.truthy. rewrite Htext. cbn [negb].
  cbv zeta. rewrite Hfield. reflexivity.
Qed.

Lemma first_field (placement rest : string) :
  lacks " " placement = true ->
  hd EmptyString (JS.split " " (placement ++ String " " rest)) = placement.
Proof.
  intros Hfield. rewrite (split_first " " placement rest Hfield). reflexivity.
Qed.

(** X2: only the first field of the text is read: what follows the first
    space (side to move, castling rights, clocks) changes nothing. *)
Theorem parseFen_reads_the_first_field (placement rest : string) :
  lacks " " placement = true ->
  parseFen (Some (placement ++ String " " rest)) = parseFen (Some placement).
Proof.
  intros Hfield.
  rewrite (parseFen_of_placement (placement ++ String " " rest) placement).
  - destruct placement as [|c placement]; [reflexivity|].
    symmetry. apply parseFen_of_placement; [discriminate|].
    rewrite (split_whole " " _ Hfield). reflexivity.
  - destruct placement; discriminate.
  - apply first_field. exact Hfield.
Qed.

(** *** Reading back a written position *)

Lemma ascii_only_append (a b : string) :
  ascii_only (a ++ b) = ascii_only a && ascii_only b.
Proof.
  induction a as [|x a IH]; cbn; [reflexivity|].
  rewrite IH, andb_assoc. reflexivity.
Qed.

Lemma ascii_is_no_continuation (c : ascii) :
  (nat_of_ascii c <? 128) = true -> is_continuation c = false.
Proof.
  unfold is_continuation. intros H. apply Nat.ltb_lt in H.
  apply andb_false_iff. left. apply Nat.leb_gt. exact H.
Qed.

(** In ASCII text every byte is a character. *)
Lemma characters_ascii (s : string) :
  ascii_only s = true ->
  characters s = map (fun c => String c EmptyString) (list_ascii_of_string s).
Proof.
  induction s as [|c s IH]; [reflexivity|].
  cbn [ascii_only]. intros H. apply andb_prop in H. destruct H as [_ Hs].
  cbn [characters list_ascii_of_string map].
  destruct s as [|next s']; [reflexivity|].
  pose proof Hs as Hnext. cbn [ascii_only] in Hnext.
  apply andb_prop in Hnext. destruct Hnext as [Hnext _].
  rewrite (ascii_is_no_continuation next Hnext), (IH Hs). reflexivity.
Qed.

Lemma expand_append (a b : string) : expand (a ++ b) = (expand a ++ expand b)%list.
Proof.
  unfold expand.
  replace (list_ascii_of_string (a ++ b))
    with (list_ascii_of_string a ++ list_ascii_of_string b)%list.
  - apply flat_map_app.
  - induction a as [|x a IH]; cbn; [reflexivity|rewrite IH; reflexivity].
Qed.

Lemma expand_run (run : nat) :
  run <= 8 -> expand (write_run run) = repeat None run.
Proof.
  intros H. unfold write_run.
  do 9 (destruct run as [|run]; [reflexivity|]). lia.
Qed.

Lemma expand_piece (p : ascii) :
  piece_letter p = true ->
  expand (String p EmptyString) = [Some (String p EmptyString)].
Proof.
  unfold piece_letter, expand, empty_run. intros H.
  apply andb_prop in H. destruct H as [H _].
  apply andb_prop in H. destruct H as [H _].
  apply andb_prop in H. destruct H as [_ H].
  apply negb_true_iff in H. cbn [list_ascii_of_string flat_map].
  rewrite H. reflexivity.
Qed.

Lemma expand_rank (row : list (option ascii)) :
  pieces_are_letters row ->
  forall run,
    run + length row <= 8 ->
    expand (write_rank run row)
    = (repeat None run ++ map (option_map (fun p => String p EmptyString)) row)%list.
Proof.
  induction 1 as [|sq row Hsq _ IH]; intros run Hrun; cbn [write_rank map length] in *.
  - rewrite app_nil_r. apply expand_run. lia.
  - destruct sq as [p|].
    + rewrite expand_append. change (String p (write_rank 0 row))
        with (String p EmptyString ++ write_rank 0 row).
      rewrite expand_append, (expand_run run), (expand_piece p Hsq), IH by lia.
      reflexivity.
    + rewrite IH by lia. cbn [option_map].
      clear. induction run as [|run IHrun]; [reflexivity|].
      cbn [repeat app] in *. rewrite IHrun. reflexivity.
Qed.

Lemma write_run_plain (run : nat) :
  run <= 8 ->
  ascii_only (write_run run) = true
  /\ lacks "/" (write_run run) = true
  /\ lacks " " (write_run run) = true.
Proof.
  intros H. unfold write_run.
  do 9 (destruct run as [|run]; [repeat split|]). lia.
Qed.

Lemma write_rank_plain (row : list (option ascii)) :
  pieces_are_letters row ->
  forall run,
    run + length row <= 8 ->
    ascii_only (write_rank run row) = true
    /\ lacks "/" (write_rank run row) = true
    /\ lacks " " (write_rank run row) = true.
Proof.
  induction 1 as [|sq row Hsq _ IH]; intros run Hrun; cbn [write_rank length] in *.
  - apply write_run_plain. lia.
  - destruct sq as [p|]; [|apply IH; lia].
    destruct (write_run_plain run) as (Ha & Hs & Hb); [lia|].
    destruct (IH 0) as (IHa & IHs & IHb); [lia|].
    unfold piece_letter in Hsq.
    apply andb_prop in Hsq. destruct Hsq as [Hsq Hspace].
    apply andb_prop in Hsq. destruct Hsq as [Hsq Hslash].
    apply andb_prop in Hsq. destruct Hsq as [Hascii _].
    rewrite ascii_only_append, !lacks_append. cbn [ascii_only lacks].
    rewrite Ha, Hs, Hb, IHa, IHs, IHb, Hascii, Hslash, Hspace. repeat split.
Qed.

(** A written rank of eight squares reads back as it was. *)
Lemma rank_round_trip (row : list (option ascii)) :
  length row = 8 ->
  pieces_are_letters row ->
  rank_squares (write_rank 0 row)
  = map (option_map (fun p => String p EmptyString)) row.
Proof.
  intros Hlen Hrow. unfold rank_squares. cbv zeta.
  destruct (write_rank_plain row Hrow 0) as (Hascii & _); [lia|].
  rewrite (characters_ascii _ Hascii), flat_map_concat_map, map_map,
    <- flat_map_concat_map.
  change (flat_map _ (list_ascii_of_string (write_rank 0 row)))
    with (expand (write_rank 0 row)).
  rewrite (expand_rank row Hrow 0) by lia. cbn [repeat app].
  rewrite length_map, Hlen. cbn [Nat.sub repeat]. rewrite app_nil_r.
  apply firstn_all2. rewrite length_map. lia.
Qed.

Lemma split_ranks (ranks : list string) :
  ranks <> [] ->
  Forall (fun rank => lacks "/" rank = true) ranks ->
  JS.split "/" (join_ranks ranks) = ranks.
Proof.
  intros Hne H. induction H as [|rank rest Hrank Hrest IH]; [contradiction|].
  destruct rest as [|next rest].
  - cbn [join_ranks]. apply split_whole. exact Hrank.
  - change (join_ranks (rank :: next :: rest))
      with (rank ++ String "/" (join_ranks (next :: rest))).
    rewrite (split_first "/" rank _ Hrank), IH; [reflexivity|discriminate].
Qed.

Lemma join_ranks_lacks_space (ranks : list string) :
  Forall (fun rank => lacks " " rank = true) ranks ->
  lacks " " (join_ranks ranks) = true.
Proof.
  induction 1 as [|rank rest Hrank Hrest IH]; [reflexivity|].
  destruct rest as [|next rest]; [exact Hrank|].
  change (join_ranks (rank :: next :: rest))
    with (rank ++ String "/" (join_ranks (next :: rest))).
  rewrite lacks_append. cbn [lacks]. rewrite Hrank, IH. reflexivity.
Qed.

(** X3, round trip: the placement written for a board, followed or not by
    the other fields of FEN, is read back as that board, square by
    square. *)
Theorem parseFen_reads_back_a_written_board
  (board : list (list (option ascii))) (rest : string) :
  well_formed_board board ->
  parseFen (Some (write_placement board)) = layout_of board
  /\ parseFen (Some (write_placement board ++ String " " rest)) = layout_of board.
Proof.
  intros [Hlen Hrows].
  assert (Hplain : Forall (fun rank => lacks "/" rank = true
                                       /\ lacks " " rank = true)
                     (map (write_rank 0) board)).
  { apply Forall_map. eapply Forall_impl; [|exact Hrows].
    intros row [Hrow Hpieces].
    destruct (write_rank_plain row Hpieces 0) as (_ & Hslash & Hspace); [lia|].
    split; assumption. }
  assert (Hspace : lacks " " (write_placement board) = true).
  { apply join_ranks_lacks_space. eapply Forall_impl; [|exact Hplain].
    intros rank H. exact (proj2 H). }
  assert (Hne : write_placement board <> EmptyString).
  { destruct board as [|r1 [|r2 board]]; try discriminate Hlen.
    unfold write_placement. cbn [map join_ranks].
    destruct (write_rank 0 r1); discriminate. }
  assert (Hread : (if negb (length (JS.split "/" (write_placement board)) =? 8)
                   then empty_board
                   else map rank_squares (JS.split "/" (write_placement board)))
                  = layout_of board).
  { unfold write_placement. rewrite split_ranks.
    - rewrite length_map, Hlen. cbn [Nat.eqb negb].
      unfold layout_of. rewrite map_map. apply map_ext_Forall.
      eapply Forall_impl; [|exact Hrows].
      intros row [Hrow Hpieces]. apply rank_round_trip; assumption.
    - destruct board; [discriminate Hlen|discriminate].
    - eapply Forall_impl; [|exact Hplain]. intros rank H. exact (proj1 H). }
  split.
  - rewrite (parseFen_of_placement _ (write_placement board) Hne); [exact Hread|].
    rewrite (split_whole " " _ Hspace). reflexivity.
  - rewrite (parseFen_of_placement _ (write_placement board)); [exact Hread| |].
    + destruct (write_placement board); discriminate.
    + apply first_field. exact Hspace.
Qed.

(** *** The component *)



(** X7: a square of the board is highlighted exactly when it is the square a
    piece left or reached in one of the last two moves of the session. *)
Theorem board_highlights_the_last_two_moves
  (session : SessionState.t) (showCoordinates showPieces : bool) (square : Cell) :
  In square (concat (of_session session showCoordinates showPieces)) ->
  isHighlighted square = true
  <-> exists move,
        In move (last_two (SessionState.moves session))
        /\ 4 <= String.length (MoveRecord.uci move)
        /\ (id square = substring 0 2 (MoveRecord.uci move)
            \/ id square = substring 2 2 (MoveRecord.uci move)).
Proof.
  intros Hin.
  assert (Hhl : isHighlighted square
                = includes (computeHighlights (SessionState.moves session)) (id square)).
  { unfold of_session, Chessboard in Hin. cbv zeta in Hin.
    cbn [seq map combine files concat app] in Hin.
    repeat (destruct Hin as [Hin|Hin]; [subst square; reflexivity|]).
    destruct Hin. }
  rewrite Hhl, computeHighlights_squares. unfold includes.
  rewrite existsb_exists. split.
  - intros (sq & Hsq & Heq). apply String.eqb_eq in Heq. subst sq.
    apply in_flat_map in Hsq. destruct Hsq as (move & Hmove & Hsq).
    exists move. split; [exact Hmove|].
    unfold move_squares in Hsq. cbv zeta in Hsq.
    destruct (String.length (MoveRecord.uci move) <? 4) eqn:Hlen; [destruct Hsq|].
    apply Nat.ltb_ge in Hlen. split; [exact Hlen|].
    destruct Hsq as [Hsq|[Hsq|[]]]; [left|right]; symmetry; exact Hsq.
  - intros (move & Hmove & Hlen & Hsq).
    exists (id square). split; [|apply String.eqb_refl].
    apply in_flat_map. exists move. split; [exact Hmove|].
    unfold move_squares. cbv zeta.
    apply Nat.ltb_ge in Hlen. rewrite Hlen.
    destruct Hsq as [Hsq|Hsq]; rewrite Hsq; [left|right; left]; reflexivity.
Qed.

End BoardFacts.

(** ** The request of a turn, on its other paths *)

Section ClientPaths.

Variable API_BASE_URL : string.
Variable JSON_parse : string -> option StreamUpdate.t.

(** X13: a line that does not start with the marker leaves no trace and changes
    nothing: a comment, an [event:] field or a blank line of the stream can
    stand anywhere between the frames. *)
Theorem lines_without_the_marker_are_skipped
  (before after : list string) (line : string)
  (finalResult : option TurnResponse.t) :
  JS.startsWith frame_marker line = false ->
  for_lines JSON_parse (before ++ line :: after) finalResult
  = for_lines JSON_parse (before ++ after) finalResult.
Proof.
  intros Hline. revert finalResult.
  induction before as [|first before IH]; intros finalResult; cbn [app for_lines].
  - unfold for_line. rewrite Hline. unfold bind, ret.
    destruct (for_lines JSON_parse after finalResult) as [t r]. reflexivity.
  - unfold bind. destruct (for_line JSON_parse first finalResult) as [t [e|fr]];
      [reflexivity|]. rewrite IH. reflexivity.
Qed.

(** X10: a rejection that is not an abort, of the request or of a read of the
    body, is passed on as it is. *)
Theorem other_rejections_are_passed_on
  (sessionId : string) (audio : Blob) (e : JS.Exn) :
  String.eqb (JS.name e) "AbortError" = false ->
  outcome (submitTurnStream API_BASE_URL JSON_parse sessionId audio (inl e)) = inl e
  /\ forall stx d pending,
      outcome (submitTurnStream API_BASE_URL JSON_parse sessionId audio
                 (inr (mkResponse true stx d (Some (mkBody pending (Rejects e))))))
      = inl e.
Proof.
  intros Hname. split.
  - unfold submitTurnStream. run_M. rewrite Hname. reflexivity.
  - intros stx d pending. rewrite outcome_submitTurnStream. cbn [ending].
    rewrite Hname. reflexivity.
Qed.

(** X11: a response that is refused, or that has no body, is never
    streamed: no reader is obtained and no update dispatched.  The body of
    a refused response is read once, as JSON, for the message: the call
    rejects with its [detail] when that is a string that is not empty,
    with the status text when the body is not JSON, with [[object Object]]
    when [detail] is an object (unless the object cannot be made a string:
    then with that failure).  Without a body it rejects with the fixed
    text. *)
Theorem response_without_a_stream_is_not_streamed
  (sessionId : string) (audio : Blob) (response : Response) :
  ok response = false \/ body response = None ->
  submitTurnStream API_BASE_URL JSON_parse sessionId audio (inr response)
  = ((SetTimeout timeout_ms
        :: Fetch (turn_stream_url API_BASE_URL sessionId) audio
        :: (if ok response then [] else [ReadJson]) ++ [ClearTimeout])%list,
     inl (if ok response then JS.Error "No response body" else refusal response))
  /\ (forall e, json response = inl e ->
                refusal response = JS.Error (statusText response))
  /\ (forall members text,
         json response = inr (Value.Object members) ->
         Value.get "detail" members = Some (Value.Str text) ->
         text <> "" ->
         refusal response = JS.Error text)
  /\ (forall members inner,
         json response = inr (Value.Object members) ->
         Value.get "detail" members = Some (Value.Object inner) ->
         refusal response
         = match Value.get "toString" inner with
           | None => JS.Error "[object Object]"
           | Some _ => Value.TypeError_to_primitive
           end).
Proof.
  intros Hresponse. split; [|split; [|split]].
  - destruct (ok response) eqn:Hok.
    + destruct Hresponse as [H|Hbody]; [discriminate H|].
      unfold submitTurnStream. run_M. rewrite Hok, Hbody. reflexivity.
    + apply submitTurnStream_refused. exact Hok.
  - intros e He. unfold refusal. rewrite He. reflexivity.
  - intros members text Hjson Hdetail Htext. unfold refusal.
    rewrite Hjson. cbn [Value.property]. rewrite Hdetail.
    apply String.eqb_neq in Htext. cbn. rewrite Htext. reflexivity.
  - intros members inner Hjson Hdetail. unfold refusal.
    rewrite Hjson. cbn [Value.property]. rewrite Hdetail. cbn.
    destruct (Value.get "toString" inner); reflexivity.
Qed.

(** X12: one request is made per call, to the turn stream of the session and
    with the recording, whatever comes of it: nothing is sent twice. *)
Theorem exactly_one_request_is_made
  (sessionId : string) (audio : Blob) (net : FetchOutcome) :
  filter (fun ef => match ef with Fetch _ _ => true | _ => false end)
    (trace (submitTurnStream API_BASE_URL JSON_parse sessionId audio net))
  = [Fetch (turn_stream_url API_BASE_URL sessionId) audio].
Proof.
  destruct net as [e|[[|] stx d [b|]]].
  - unfold submitTurnStream. run_M.
    destruct (String.eqb (JS.name e) "AbortError"); reflexivity.
  - rewrite submitTurnStream_streaming. cbv zeta. cbn [trace fst filter].
    f_equal. rewrite filter_app. cbn [filter]. rewrite app_nil_r.
    destruct (read_loop_spec JSON_parse (chunks b) (ending b) None) as (_ & _ & Hr).
    induction Hr as [|ef t Hef _ IH]; [reflexivity|].
    cbn [filter]. destruct ef; try discriminate Hef; exact IH.
  - reflexivity.
  - rewrite submitTurnStream_refused by reflexivity. reflexivity.
  - rewrite submitTurnStream_refused by reflexivity. reflexivity.
Qed.

End ClientPaths.

(** ** Plain JSON requests *)

(** X14: a refused response always rejects, with a text chosen from its body:
    the [detail] member when the body is a JSON object that has one and it
    is a string; the status text when the body is not JSON, is not an
    object, or has no [detail] or a null one; the fixed text when [detail]
    is anything else (a list of validation errors, say). *)
Theorem refused_reply_rejects_with_its_detail (response : Api.Reply) :
  Api.ok response = false ->
  Api.handleResponse response
  = inl (JS.Error
           match Api.json response with
           | inr (JSON.Object members) =>
               match JSON.get "detail" members with
               | Some (JSON.Str text) => text
               | Some JSON.Null | None => Api.statusText response
               | Some _ => "Request failed"
               end
           | _ => Api.statusText response
           end).
Proof.
  intros Hok. unfold Api.handleResponse. rewrite Hok. cbn [negb]. cbv zeta.
  destruct (Api.json response) as [e|[|b|n|text|l|members]]; try reflexivity.
  cbn [Api.property].
  destruct (JSON.get "detail" members) as [[|b|n|text|l|ms]|]; reflexivity.
Qed.

(** ** The turn controller, on its other paths *)

Lemma announce_keeps_loading (id : string) (turn : TurnResponse.t) (s : App.State) :
  App.isLoading (fst (App.announce id turn s)) = App.isLoading s.
Proof.
  unfold App.announce.
  destruct (TurnResponse.engine_move turn) as [em|]; run_Act; [|reflexivity].
  destruct (TurnResponse.user_move turn) as [um|];
    destruct (String.eqb (Move.san em) "Checkmate!");
    [| |run_Act; reflexivity|]; run_Act; try reflexivity;
    destruct (String.eqb (Move.san em) "Stalemate"); run_Act; try reflexivity;
    destruct (JS.endsWith "#" (Move.san em)); run_Act; try reflexivity;
    destruct (JS.includes "Stalemate" (Move.san em)); run_Act; reflexivity.
Qed.

(** The game-ended flag is raised by the game-ending conditions only on a
    match of one of the four patterns. *)
Lemma announce_raises_on_a_pattern (id : string) (turn : TurnResponse.t)
  (s : App.State) :
  App.gameEnded s = false ->
  App.gameEnded (fst (App.announce id turn s)) = true ->
  exists em, TurnResponse.engine_move turn = Some em
             /\ App.game_over_pattern (Move.san em) = true.
Proof.
  destruct s as [sess st ld sub err sk ge rec rerr shown].
  unfold App.announce, App.game_over_pattern. cbn [App.gameEnded]. intros ->.
  destruct (TurnResponse.engine_move turn) as [em|]; run_Act;
    [|intros H; discriminate H].
  intros H. exists em. split; [reflexivity|]. revert H.
  destruct (String.eqb (Move.san em) "Checkmate!"); [reflexivity|].
  destruct (String.eqb (Move.san em) "Stalemate"); [reflexivity|].
  destruct (JS.endsWith "#" (Move.san em)); [reflexivity|].
  destruct (JS.includes "Stalemate" (Move.san em)); [reflexivity|].
  destruct (TurnResponse.user_move turn); run_Act; intros H; discriminate H.
Qed.

(** The state when the stream has been consumed: of what was there when
    the button was released, only the status text, the recording flag and
    the submitting flag have changed. *)
Lemma consumed_fields (t : list Effect) (s : App.State) :
  let s1 := App.run_handler t
              (App.setIsRecording false
                 (App.setStatus (Some "Uploading audio...")
                    (App.setIsSubmitting true s))) in
  App.session s1 = App.session s
  /\ App.isLoading s1 = App.isLoading s
  /\ App.gameEnded s1 = App.gameEnded s
  /\ App.isRecording s1 = false.
Proof.
  cbv zeta.
  pose proof (run_handler_keeps t
                (App.setIsRecording false
                   (App.setStatus (Some "Uploading audio...")
                      (App.setIsSubmitting true s)))) as Hk.
  unfold keeps_all_but_status in Hk.
  destruct Hk as (Hsess & Hld & _ & _ & _ & Hge & Hr & _).
  rewrite Hsess, Hld, Hge, Hr. destruct s; repeat split.
Qed.

Lemma orderly_iff (s : App.State) :
  orderly s = true
  <-> (App.isRecording s = true -> JS.truthy (App.sessionId s) = true)
      /\ (App.gameEnded s = true -> App.isRecording s = false).
Proof.
  unfold orderly.
  destruct (App.isRecording s), (App.gameEnded s), (JS.truthy (App.sessionId s));
    cbn; intuition congruence.
Qed.

(** Reads a field through the setters around a state. *)
Ltac read_fields :=
  cbn [fst snd trace outcome
       App.setSession App.setStatus App.setIsLoading App.setIsSubmitting
       App.setError App.setSkillLevel App.setGameEnded App.setIsRecording
       App.setRecorderError
       App.session App.status App.isLoading App.isSubmitting App.error
       App.skillLevel App.gameEnded App.isRecording
       App.recorderError App.renderedRecorderError] in *.

Lemma orderly_render (s : App.State) : orderly (App.render s) = orderly s.
Proof.
  destruct (render_keeps s) as (Hsess & _ & _ & _ & _ & Hend & Hrec & _).
  unfold orderly, App.sessionId. rewrite Hsess, Hend, Hrec. reflexivity.
Qed.

Lemma orderly_handleStartRecording (mic : JS.Exn + unit) (s : App.State) :
  orderly s = true ->
  App.gameEnded s = false ->
  orderly (fst (App.handleStartRecording mic s)) = true.
Proof.
  intros Hs Hge. apply orderly_iff in Hs. destruct Hs as (Hid & _).
  apply orderly_iff.
  destruct s as [sess st ld sub err sk ge rec rerr shown].
  unfold App.handleStartRecording, App.start, App.render, App.sessionId in *.
  cbn [App.isRecording App.isSubmitting App.isLoading App.gameEnded App.session] in *.
  subst ge.
  destruct (JS.truthy (option_map SessionState.session_id sess)) eqn:Htruthy,
    rec, sub, mic as [e|[]];
    cbn -[JS.truthy App.same]; rewrite ?Htruthy;
    try destruct (App.same None shown);
    try change (JS.truthy None) with false;
    cbn -[JS.truthy]; rewrite ?Htruthy;
    intuition congruence.
Qed.

Lemma orderly_startNewGame (created : JS.Exn + SessionState.t) (s : App.State) :
  orderly s = true ->
  App.gameEnded s = true ->
  orderly (fst (App.startNewGame created s)) = true.
Proof.
  intros Hs Hge. apply orderly_iff in Hs. destruct Hs as (_ & Hrec).
  specialize (Hrec Hge). apply orderly_iff.
  destruct s as [sess st ld sub err sk ge rec rerr shown].
  cbn [App.isRecording App.isSubmitting App.isLoading App.gameEnded] in *.
  subst ge rec.
  destruct created as [e|c]; cbn; repeat split; congruence.
Qed.

Section ControllerPaths.

Variable API_BASE_URL : string.
Variable JSON_parse : string -> option StreamUpdate.t.

(** The guard of line 112. *)
Lemma handleStopRecording_guard (env : App.TurnEnv) (s : App.State) :
  (exists id, App.recording id s = true)
  \/ App.handleStopRecording API_BASE_URL JSON_parse env s = (s, ret tt).
Proof.
  unfold App.recording, App.handleStopRecording.
  destruct (JS.truthy_value (App.sessionId s)) as [id|]; [|right; reflexivity].
  destruct (App.isRecording s), (App.isSubmitting s); cbn [negb orb andb];
    try (right; reflexivity).
  left. exists id. rewrite String.eqb_refl. reflexivity.
Qed.

(** A turn whose request is rejected, step by step. *)
Lemma handleStopRecording_rejected (env : App.TurnEnv) (s : App.State)
  (id : string) (blob : Blob) (e : JS.Exn) :
  App.recording id s = true ->
  App.captured env = Some blob ->
  outcome (submitTurnStream API_BASE_URL JSON_parse id blob (App.net env)) = inl e ->
  let m := submitTurnStream API_BASE_URL JSON_parse id blob (App.net env) in
  App.handleStopRecording API_BASE_URL JSON_parse env s
  = (App.setIsSubmitting false
       (App.setStatus None
          (App.setError (Some (JS.message e))
             (App.run_handler (trace m)
                (App.setIsRecording false
                   (App.setStatus (Some "Uploading audio...")
                      (App.setIsSubmitting true s)))))),
     ((RecorderStop :: trace m)%list, inr tt)).
Proof.
  destruct s as [sess st ld sub err sk ge rec rerr shown].
  unfold App.recording, App.handleStopRecording.
  cbn [App.isRecording App.isSubmitting].
  intros Hrec Hblob Hturn.
  destruct (JS.truthy_value (App.sessionId _)) as [id'|]; [|discriminate].
  apply andb_prop in Hrec. destruct Hrec as [Hrec Hsub].
  apply andb_prop in Hrec. destruct Hrec as [Hid Hrec].
  apply negb_true_iff in Hsub. apply String.eqb_eq in Hid. subst id' rec sub.
  rewrite Hblob. cbn [negb orb].
  unfold App.stop, App.awaitSubmitTurnStream, App.getSession. run_Act.
  revert Hturn.
  generalize (submitTurnStream API_BASE_URL JSON_parse id blob (App.net env)).
  intros [t [e'|turn']] Hturn; cbn [outcome snd] in Hturn; [|discriminate].
  injection Hturn as ->. run_Act.
  rewrite !app_nil_r. reflexivity.
Qed.

(** A release with nothing captured, step by step. *)
Lemma handleStopRecording_silent (env : App.TurnEnv) (s : App.State) (id : string) :
  App.recording id s = true ->
  App.captured env = None ->
  App.handleStopRecording API_BASE_URL JSON_parse env s
  = (App.setIsSubmitting false
       (App.setStatus None
          (App.setError (Some "No audio captured")
             (App.setIsRecording false
                (App.setStatus (Some "Uploading audio...")
                   (App.setIsSubmitting true s))))),
     ([RecorderStop], inr tt)).
Proof.
  destruct s as [sess st ld sub err sk ge rec rerr shown].
  unfold App.recording, App.handleStopRecording.
  cbn [App.isRecording App.isSubmitting].
  intros Hrec Hblob.
  destruct (JS.truthy_value (App.sessionId _)) as [id'|]; [|discriminate].
  apply andb_prop in Hrec. destruct Hrec as [Hrec Hsub].
  apply andb_prop in Hrec. destruct Hrec as [Hid Hrec].
  apply negb_true_iff in Hsub. subst rec sub.
  rewrite Hblob. cbn [negb orb].
  unfold App.stop. run_Act. reflexivity.
Qed.

(** X15: a turn whose request is rejected changes neither the session on
    screen nor the game-ended flag: the message of the rejection is shown,
    the status text is cleared, the session is not read again and nothing
    is spoken. *)
Theorem failed_turn_shows_the_error_and_keeps_the_session
  (env : App.TurnEnv) (s : App.State) (id : string) (blob : Blob) (e : JS.Exn) :
  App.recording id s = true ->
  App.captured env = Some blob ->
  outcome (submitTurnStream API_BASE_URL JSON_parse id blob (App.net env)) = inl e ->
  let done := App.handleStopRecording API_BASE_URL JSON_parse env s in
  App.error (fst done) = Some (JS.message e)
  /\ App.status (fst done) = None
  /\ App.session (fst done) = App.session s
  /\ App.gameEnded (fst done) = App.gameEnded s
  /\ App.isSubmitting (fst done) = false
  /\ App.isRecording (fst done) = false
  /\ trace (snd done)
     = (RecorderStop
          :: trace (submitTurnStream API_BASE_URL JSON_parse id blob (App.net env)))%list
  /\ outcome (snd done) = inr tt.
Proof.
  intros Hrec Hblob Hturn. cbv zeta.
  rewrite (handleStopRecording_rejected env s id blob e Hrec Hblob Hturn).
  cbv zeta.
  destruct (consumed_fields
              (trace (submitTurnStream API_BASE_URL JSON_parse id blob (App.net env))) s)
    as (Hsess & _ & Hge & Hr).
  read_fields. repeat split; assumption.
Qed.

(** X16: a release with nothing captured makes no request: the only effect is
    the stop of the recorder, and the fixed message is shown. *)
Theorem release_without_audio_makes_no_request
  (env : App.TurnEnv) (s : App.State) (id : string) :
  App.recording id s = true ->
  App.captured env = None ->
  let done := App.handleStopRecording API_BASE_URL JSON_parse env s in
  trace (snd done) = [RecorderStop]
  /\ App.error (fst done) = Some "No audio captured"
  /\ App.status (fst done) = None
  /\ App.session (fst done) = App.session s
  /\ App.gameEnded (fst done) = App.gameEnded s
  /\ App.isSubmitting (fst done) = false
  /\ App.isRecording (fst done) = false.
Proof.
  intros Hrec Hblob. cbv zeta.
  rewrite (handleStopRecording_silent env s id Hrec Hblob).
  destruct s as [sess st ld sub err sk ge rec rerr shown]. cbn. repeat split.
Qed.

(** What [handleStopRecording] leaves behind when its guard lets it run. *)
Lemma handleStopRecording_fields (env : App.TurnEnv) (s : App.State) (id : string) :
  App.recording id s = true ->
  let s' := fst (App.handleStopRecording API_BASE_URL JSON_parse env s) in
  App.isSubmitting s' = false
  /\ App.isRecording s' = false
  /\ App.isLoading s' = App.isLoading s.
Proof.
  intros Hrec. cbv zeta.
  destruct (App.captured env) as [blob|] eqn:Hblob.
  - destruct (outcome (submitTurnStream API_BASE_URL JSON_parse id blob (App.net env)))
      as [e|turn] eqn:Hturn.
    + rewrite (handleStopRecording_rejected env s id blob e Hrec Hblob Hturn).
      cbv zeta.
      destruct (consumed_fields
                  (trace (submitTurnStream API_BASE_URL JSON_parse id blob (App.net env))) s)
        as (_ & Hld & _ & Hr).
      read_fields. repeat split; assumption.
    + rewrite (handleStopRecording_resolved API_BASE_URL JSON_parse env s id blob turn
                 Hrec Hblob Hturn).
      cbv zeta.
      destruct (consumed_fields
                  (trace (submitTurnStream API_BASE_URL JSON_parse id blob (App.net env))) s)
        as (_ & Hld & _ & Hr).
      set (s1 := App.run_handler _ _) in *.
      destruct (App.refetch env) as [e|updated].
      * read_fields. repeat split; assumption.
      * pose proof (announce_keeps id turn
                      (App.setError None (App.setSession (Some updated) s1))) as (_ & Hr3 & _).
        pose proof (announce_keeps_loading id turn
                      (App.setError None (App.setSession (Some updated) s1))) as Hl3.
        destruct (App.announce id turn _) as [s3 [t3 [e|[]]]];
          read_fields;
          repeat split; congruence.
  - rewrite (handleStopRecording_silent env s id Hrec Hblob).
    destruct s as [sess st ld sub err sk ge rec rerr shown]. cbn. repeat split.
Qed.

Lemma orderly_handleStopRecording (env : App.TurnEnv) (s : App.State) :
  orderly s = true ->
  orderly (fst (App.handleStopRecording API_BASE_URL JSON_parse env s)) = true.
Proof.
  intros Hs.
  destruct (handleStopRecording_guard env s) as [[id Hrec]|Hsame];
    [|rewrite Hsame; exact Hs].
  destruct (handleStopRecording_fields env s id Hrec) as (_ & Hr & _).
  apply orderly_iff. rewrite Hr. split; [discriminate|reflexivity].
Qed.

Lemma orderly_dispatch (ev : App.Event) (s : App.State) :
  App.touches ev = false ->
  orderly s = true ->
  orderly (fst (App.dispatch API_BASE_URL JSON_parse ev s)) = true.
Proof.
  intros Htouch Hs.
  destruct ev as [key repeat mic|key env|mic|mic|env|created|level];
    try discriminate Htouch; unfold App.dispatch.
  - destruct (App.gameEnded s) eqn:Hge.
    + rewrite !andb_false_r. exact Hs.
    + destruct (_ && _); [|exact Hs].
      rewrite beginRecording_render. cbn [fst]. rewrite orderly_render.
      apply orderly_handleStartRecording; assumption.
  - destruct (_ && _); [|exact Hs]. apply orderly_handleStopRecording. exact Hs.
  - unfold App.record_disabled. destruct (App.gameEnded s) eqn:Hge.
    + rewrite orb_true_r, andb_false_r. exact Hs.
    + destruct (_ && _); [|exact Hs].
      rewrite beginRecording_render. cbn [fst]. rewrite orderly_render.
      apply orderly_handleStartRecording; assumption.
  - destruct (App.controls_rendered s); [|exact Hs].
    apply orderly_handleStopRecording. exact Hs.
  - destruct (App.gameEnded s) eqn:Hge.
    + destruct (App.controls_rendered s); [|exact Hs].
      apply orderly_startNewGame; assumption.
    + rewrite andb_false_r. exact Hs.
  - destruct (_ && _); [|exact Hs].
    destruct s as [sess st ld sub err sk ge rec rerr shown]. exact Hs.
Qed.

Lemma orderly_run (evs : list App.Event) :
  forallb (fun ev => negb (App.touches ev)) evs = true ->
  forall s,
    orderly s = true ->
    orderly (fst (App.run API_BASE_URL JSON_parse evs s)) = true.
Proof.
  induction evs as [|ev evs IH]; intros Hevs s Hs; [exact Hs|].
  cbn [forallb] in Hevs. apply andb_prop in Hevs. destruct Hevs as [Hev Hevs].
  apply negb_true_iff in Hev.
  cbn [App.run].
  pose proof (orderly_dispatch ev s Hev Hs) as H1.
  destruct (App.dispatch API_BASE_URL JSON_parse ev s) as [s1 [t1 r1]].
  cbn [fst] in H1. specialize (IH Hevs s1 H1).
  destruct (App.run API_BASE_URL JSON_parse evs s1) as [s2 t2]. exact IH.
Qed.

Lemma orderly_mount (created : JS.Exn + SessionState.t) :
  orderly (fst (App.mount created)) = true.
Proof. destruct created as [e|c]; reflexivity. Qed.

(** X18: as long as the record button is not touched, that is with the
    keyboard and the mouse, from the first render on and whatever the
    microphone and the server do: after each event a recording is on only
    with a session to send it to, and never once the game has ended. *)
Theorem no_recording_after_game_over_without_touch
  (created : JS.Exn + SessionState.t) (evs : list App.Event) :
  forallb (fun ev => negb (App.touches ev)) evs = true ->
  orderly (fst (App.run API_BASE_URL JSON_parse evs (fst (App.mount created)))) = true.
Proof.
  intros Hevs. apply orderly_run; [exact Hevs|]. apply orderly_mount.
Qed.

(** X26: as long as the record button is not touched, the text under it
    reads that the game is over exactly when it is: the recording hint,
    which is tested first, does not hide it. *)
Theorem hint_tells_when_the_game_is_over_without_touch
  (created : JS.Exn + SessionState.t) (evs : list App.Event) :
  forallb (fun ev => negb (App.touches ev)) evs = true ->
  let s := fst (App.run API_BASE_URL JSON_parse evs (fst (App.mount created))) in
  record_hint s = "Game over" <-> App.gameEnded s = true.
Proof.
  intros Hevs. cbv zeta.
  pose proof (orderly_run evs Hevs _ (orderly_mount created)) as Hs.
  apply orderly_iff in Hs. destruct Hs as (_ & Hrec).
  unfold record_hint.
  destruct (App.gameEnded _).
  - rewrite (Hrec eq_refl). tauto.
  - destruct (App.isRecording _); split; discriminate.
Qed.

(** X17: the game-ended flag is raised by a turn only when the turn went
    through, the session was read back, and the engine's reply matches one
    of the four patterns. *)
Theorem game_over_is_entered_only_on_a_pattern
  (env : App.TurnEnv) (s : App.State) :
  App.gameEnded s = false ->
  App.gameEnded (fst (App.handleStopRecording API_BASE_URL JSON_parse env s)) = true ->
  exists id blob turn updated em,
    App.recording id s = true
    /\ App.captured env = Some blob
    /\ outcome (submitTurnStream API_BASE_URL JSON_parse id blob (App.net env)) = inr turn
    /\ App.refetch env = inr updated
    /\ TurnResponse.engine_move turn = Some em
    /\ App.game_over_pattern (Move.san em) = true.
Proof.
  intros Hge Hend.
  destruct (handleStopRecording_guard env s) as [[id Hrec]|Hsame];
    [|rewrite Hsame in Hend; cbn [fst] in Hend; congruence].
  destruct (App.captured env) as [blob|] eqn:Hblob.
  2:{ rewrite (handleStopRecording_silent env s id Hrec Hblob) in Hend.
      destruct s as [sess st ld sub err sk ge rec rerr shown]. cbn in Hend, Hge. congruence. }
  destruct (consumed_fields
              (trace (submitTurnStream API_BASE_URL JSON_parse id blob (App.net env))) s)
    as (_ & _ & Hg1 & _).
  destruct (outcome (submitTurnStream API_BASE_URL JSON_parse id blob (App.net env)))
    as [e|turn] eqn:Hturn.
  { rewrite (handleStopRecording_rejected env s id blob e Hrec Hblob Hturn) in Hend.
    cbv zeta in Hend. read_fields. congruence. }
  rewrite (handleStopRecording_resolved API_BASE_URL JSON_parse env s id blob turn
             Hrec Hblob Hturn) in Hend.
  cbv zeta in Hend.
  set (s1 := App.run_handler _ _) in *.
  destruct (App.refetch env) as [e|updated] eqn:Hfetch.
  { read_fields. congruence. }
  pose proof (announce_raises_on_a_pattern id turn
                (App.setError None (App.setSession (Some updated) s1))) as Hpat.
  destruct (App.announce id turn _) as [s3 [t3 [e|[]]]]; read_fields;
    cbn [fst] in Hpat;
    (destruct Hpat as (em & Hem & Hp); [read_fields; congruence|exact Hend|]);
    exists id, blob, turn, updated, em; repeat split; assumption.
Qed.

(** X22: moving the slider makes no request and touches nothing but the
    level; the level chosen is the one the next game is created with. *)
Theorem skill_level_takes_effect_with_the_next_game
  (level : nat) (created : JS.Exn + SessionState.t) (s : App.State) :
  App.controls_rendered s = true ->
  App.skill_disabled s = false ->
  let moved := App.dispatch API_BASE_URL JSON_parse (App.SlideSkill level) s in
  moved = (App.setSkillLevel level s, ret tt)
  /\ trace (snd (App.startNewGame created (fst moved))) = [CreateSession level].
Proof.
  intros Hshown Hfree. cbv zeta. unfold App.dispatch.
  rewrite Hshown, Hfree. cbn [negb andb]. split; [reflexivity|].
  destruct s as [sess st ld sub err sk ge rec rerr shown].
  destruct created as [e|c]; reflexivity.
Qed.

End ControllerPaths.

(** X19: a recording begins exactly when a session is loaded, no turn is being
    submitted and the microphone is granted. *)
Theorem recording_begins_only_when_idle_and_granted
  (mic : JS.Exn + unit) (s : App.State) :
  App.isRecording s = false ->
  App.isRecording (fst (App.handleStartRecording mic s)) = true
  <-> JS.truthy (App.sessionId s) = true
      /\ App.isSubmitting s = false
      /\ mic = inr tt.
Proof.
  destruct s as [sess st ld sub err sk ge rec rerr shown].
  unfold App.handleStartRecording, App.start, App.render, App.sessionId.
  cbn [App.isRecording App.isSubmitting App.session]. intros ->.
  destruct (JS.truthy (option_map SessionState.session_id sess)), sub;
    cbn; try (split; [discriminate|intros (H1 & H2 & H3); discriminate]).
  destruct mic as [e|[]]; destruct shown; cbn; split;
    try discriminate; try tauto.
  all: intros (_ & _ & H); discriminate H.
Qed.


(** X21: a new game that cannot be created keeps the session there was and
    shows the message; one that is created replaces it and clears the
    message.  Either way the loading and game-ended flags end up lowered
    and the status text cleared. *)
Theorem startNewGame_replaces_the_session_only_when_created
  (created : JS.Exn + SessionState.t) (s : App.State) :
  let s' := fst (App.startNewGame created s) in
  App.isLoading s' = false
  /\ App.gameEnded s' = false
  /\ App.status s' = None
  /\ App.session s' = match created with
                      | inr c => Some c
                      | inl _ => App.session s
                      end
  /\ App.error s' = match created with
                    | inr _ => None
                    | inl e => Some (JS.message e)
                    end
  /\ trace (snd (App.startNewGame created s)) = [CreateSession (App.skillLevel s)].
Proof.
  destruct s as [sess st ld sub err sk ge rec rerr shown].
  destruct created as [e|c]; cbn; repeat split.
Qed.

(** ** Speaking a move *)

Lemma encode_unreserved (c : ascii) :
  Speech.unreserved c = true ->
  Ascii.eqb c "%" = false
  /\ Ascii.eqb c "/" = false /\ Ascii.eqb c "?" = false
  /\ Ascii.eqb c "#" = false /\ Ascii.eqb c " " = false.
Proof.
  destruct c as [[] [] [] [] [] [] [] []]; vm_compute; intros H;
    try discriminate H; repeat split.
Qed.

Lemma encode_escaped (c : ascii) :
  let h := Speech.hex_digit (nat_of_ascii c / 16) in
  let l := Speech.hex_digit (nat_of_ascii c mod 16) in
  match JSON.hex_value h, JSON.hex_value l with
  | Some hi, Some lo => ascii_of_nat (16 * hi + lo) = c
  | _, _ => False
  end
  /\ Ascii.eqb h "/" = false /\ Ascii.eqb h "?" = false
  /\ Ascii.eqb h "#" = false /\ Ascii.eqb h " " = false
  /\ Ascii.eqb l "/" = false /\ Ascii.eqb l "?" = false
  /\ Ascii.eqb l "#" = false /\ Ascii.eqb l " " = false.
Proof.
  destruct c as [[] [] [] [] [] [] [] []]; vm_compute; repeat split.
Qed.

(** X27: the text to speak stays one segment of the address: after
    [encodeURIComponent] it holds no slash, question mark, hash sign or
    space (a mate's SAN ends in a hash sign), and percent-decoding gives
    the text back, byte for byte. *)
Theorem spoken_text_is_one_path_segment (move : string) :
  Speech.percent_decode (Speech.encodeURIComponent move) = Some move
  /\ lacks "/" (Speech.encodeURIComponent move) = true
  /\ lacks "?" (Speech.encodeURIComponent move) = true
  /\ lacks "#" (Speech.encodeURIComponent move) = true
  /\ lacks " " (Speech.encodeURIComponent move) = true.
Proof.
  induction move as [|c move (IHd & IH1 & IH2 & IH3 & IH4)]; [repeat split|].
  cbn [Speech.encodeURIComponent].
  destruct (Speech.unreserved c) eqn:Hc.
  - destruct (encode_unreserved c Hc) as (Hp & H1 & H2 & H3 & H4).
    cbn [Speech.percent_decode lacks]. rewrite Hp, IHd, H1, H2, H3, H4, IH1, IH2, IH3, IH4.
    repeat split.
  - pose proof (encode_escaped c) as He. cbv zeta in He.
    destruct He as (Hv & A1 & A2 & A3 & A4 & B1 & B2 & B3 & B4).
    cbn [Speech.percent_decode lacks]. rewrite Ascii.eqb_refl.
    destruct (JSON.hex_value (Speech.hex_digit (nat_of_ascii c / 16))) as [hi|];
      [|destruct Hv].
    destruct (JSON.hex_value (Speech.hex_digit (nat_of_ascii c mod 16))) as [lo|];
      [|destruct Hv].
    rewrite IHd, Hv, A1, A2, A3, A4, B1, B2, B3, B4, IH1, IH2, IH3, IH4.
    repeat split.
Qed.

(** X28: [speakMove] never throws, whatever the request, the read of the
    body and the playback do: a failure is logged, once.  When the text
    holds half a surrogate pair the address cannot be built and no request
    is made; otherwise one request is made, first, to the address of the
    text.  It plays only what an accepted response returned. *)
Theorem speakMove_never_throws
  (API_BASE_URL sessionId move : string) (env : Speech.Env) :
  let done := Speech.speakMove API_BASE_URL sessionId move env in
  snd done = inr tt
  /\ match Speech.scalars move with
     | Some text =>
         exists rest,
           fst done
           = Speech.Request (API_BASE_URL ++ "/sessions/" ++ sessionId ++ "/tts/"
                             ++ Speech.encodeURIComponent text) :: rest
           /\ Forall (fun ef => match ef with
                                | Speech.Request _ => False
                                | _ => True
                                end) rest
     | None => fst done = [Speech.ConsoleError Speech.URIError]
     end
  /\ (In Speech.Play (fst done) -> Speech.response env = inr true)
  /\ (forall e, In (Speech.ConsoleError e) (fst done)
                <-> snd (Speech.attempt API_BASE_URL sessionId move env) = inl e).
Proof.
  cbv zeta. unfold Speech.speakMove, Speech.attempt, Speech.tts_url.
  destruct (Speech.scalars move) as [text|].
  - destruct env as [[e|[|]] [e1|[]] [e2|[]]]; cbn [Speech.response Speech.audioBlob
      Speech.playback fst snd app].
    all: split; [reflexivity|].
    all: split; [eexists; split; [reflexivity|repeat constructor]|].
    all: split.
    all: try (intros H; cbn in H; intuition congruence).
    all: intros e'; cbn; split; intros H; intuition congruence.
  - cbn [fst snd app]. split; [reflexivity|]. split; [reflexivity|]. split.
    + intros [H|[]]. discriminate H.
    + intros e. cbn. split; intros H; intuition congruence.
Qed.

(** ** The recorder hook *)

Section RecorderFacts.

Import Recorder.

Lemma blob_concat_cons (x : string) (xs : list string) :
  String.concat "" (x :: xs) = x ++ String.concat "" xs.
Proof.
  destruct xs as [|y xs]; cbn [String.concat append]; [|reflexivity].
  induction x as [|c x IH]; cbn; [reflexivity|rewrite <- IH; reflexivity].
Qed.

Lemma blob_concat_app (xs ys : list string) :
  String.concat "" (xs ++ ys) = String.concat "" xs ++ String.concat "" ys.
Proof.
  induction xs as [|x xs IH]; [reflexivity|].
  cbn [app]. rewrite !blob_concat_cons, IH, append_assoc. reflexivity.
Qed.

(** The chunks that pass the test of line 40. *)
Lemma concat_nonempty (ds : list Blob) :
  String.concat "" (filter (fun data => 0 <? String.length data) ds)
  = String.concat "" ds.
Proof.
  induction ds as [|d ds IH]; [reflexivity|].
  rewrite blob_concat_cons. cbn [filter]. destruct d as [|c d].
  - exact IH.
  - change (0 <? String.length (String c d)) with true. cbv iota.
    rewrite blob_concat_cons, IH. reflexivity.
Qed.

Lemma dataavailable_all (ds : list Blob) (s : State) :
  recorder s = true ->
  fold_left (fun s data => dataavailable data s) ds s
  = mkState (mediaStream s) true
      (chunks s ++ filter (fun data => 0 <? String.length data) ds)
      (isRecording s) (error s).
Proof.
  revert s. induction ds as [|d ds IH]; intros s Hrec; cbn [fold_left filter].
  - rewrite app_nil_r. destruct s; cbn in *; subst; reflexivity.
  - unfold dataavailable at 2. rewrite Hrec. cbn [andb].
    destruct (0 <? String.length d).
    + rewrite IH by reflexivity. cbn. rewrite <- app_assoc. reflexivity.
    + apply IH. exact Hrec.
Qed.

Lemma blob_of_chunks (ds : list string) :
  let kept := filter (fun data => 0 <? String.length data) ds in
  match kept with
  | [] => None
  | _ :: _ => Some (String.concat "" kept)
  end
  = if String.eqb (String.concat "" ds) "" then None else Some (String.concat "" ds).
Proof.
  cbv zeta. rewrite <- (concat_nonempty ds).
  induction ds as [|d ds IH]; [reflexivity|].
  cbn [filter]. destruct d as [|c d].
  - exact IH.
  - change (0 <? String.length (String c d)) with true. cbv iota.
    rewrite blob_concat_cons. reflexivity.
Qed.

Lemma run_data (ds : list Blob) (s : State) :
  run (map Data ds) s = fold_left (fun s data => dataavailable data s) ds s.
Proof.
  unfold run. revert s. induction ds as [|d ds IH]; intros s; [reflexivity|].
  cbn [map fold_left step]. apply IH.
Qed.

(** X23: a recording started from rest, heard through and stopped: what [stop]
    resolves with is all the data the recorder handed over, in order and
    in one blob, or [null] when that is nothing; it is never an empty
    blob.  The refs are back at rest. *)
Theorem stop_hands_over_what_was_recorded
  (s : State) (heard final : list Blob) :
  isRecording s = false ->
  stop final (run (map Data heard) (fst (start Granted s)))
  = (mkState false false [] false None,
     let recorded := String.concat "" (heard ++ final)%list in
     if String.eqb recorded "" then None else Some recorded).
Proof.
  intros Hrest. unfold start. cbn [isRecording]. rewrite Hrest. cbn [fst].
  rewrite run_data, dataavailable_all by reflexivity. cbn [mediaStream chunks isRecording error app].
  unfold stop. cbn [isRecording recorder negb orb].
  rewrite dataavailable_all by reflexivity. cbn [chunks error].
  rewrite <- filter_app. cbv zeta. unfold Blob in *.
  rewrite <- (blob_of_chunks (heard ++ final)%list). reflexivity.
Qed.

Lemma consistent_step (ev : Event) (s : State) :
  consistent s -> consistent (step ev s).
Proof.
  unfold consistent. intros (Hrec & Hstream & Hrest & Hchunks).
  destruct s as [ms rec cs isrec err]. cbn in Hrec, Hstream, Hrest, Hchunks.
  subst rec. destruct ev as [mic|data|final]; cbn [step].
  - unfold start. cbn [isRecording]. destruct isrec; cbn.
    + repeat split; try assumption.
    + destruct mic as [|e|e]; cbn; repeat split; auto; discriminate.
  - unfold dataavailable. cbn [recorder].
    destruct isrec; cbn [andb]; [|cbn; tauto].
    destruct data as [|c data]; cbn; [tauto|].
    repeat split; auto; try discriminate.
    apply Forall_app. split; [exact Hchunks|]. repeat constructor. discriminate.
  - unfold stop. cbn [isRecording recorder].
    destruct isrec; cbn; repeat split; auto; discriminate.
Qed.

(** X24: between two events, from the first render on: a recorder is held
    exactly while the hook says it is recording, and then a stream is held
    too; nothing is kept from one recording to the next; no chunk kept is
    empty. *)
Theorem recorder_is_held_exactly_while_recording (evs : list Event) :
  consistent (run evs initial).
Proof.
  assert (H : consistent initial).
  { unfold consistent. cbn. repeat split; auto; discriminate. }
  revert H. unfold run. generalize initial.
  induction evs as [|ev evs IH]; intros s Hs; [exact Hs|].
  cbn [fold_left]. apply IH. apply consistent_step. exact Hs.
Qed.

(** X25: a start that fails leaves the hook at rest and reports it; when
    it is the recorder that cannot be made, the stream just opened stays
    held. *)
Theorem failed_start_is_reported (mic : Microphone) (e : JS.Exn) (s : State) :
  isRecording s = false ->
  mic = Denied e \/ mic = Unsupported e ->
  let done := start mic s in
  snd done = inl e
  /\ isRecording (fst done) = false
  /\ recorder (fst done) = recorder s
  /\ chunks (fst done) = chunks s
  /\ error (fst done) = Some denied_message
  /\ mediaStream (fst done)
     = match mic with Unsupported _ => true | _ => mediaStream s end.
Proof.
  intros Hrest [-> | ->]; unfold start; cbn [isRecording]; rewrite Hrest; cbn;
    repeat split; assumption.
Qed.

End RecorderFacts.

(** ** Further runs on concrete input *)

Import Samples.

Lemma parseFen_first_field_witness :
  Chessboard.parseFen (Some (SessionState.fen opening))
  = Chessboard.parseFen (Some "rnbqkbnr/pppppppp/8/8/8/8/PPPPPPPP/RNBQKBNR").
Proof.
  exact (parseFen_reads_the_first_field
           "rnbqkbnr/pppppppp/8/8/8/8/PPPPPPPP/RNBQKBNR" "w KQkq - 0 1" eq_refl).
Defined.

Lemma parseFen_round_trip_witness :
  Chessboard.parseFen (Some (SessionState.fen opening))
  = Chessboard.layout_of starting_board.
Proof.
  refine (proj2 (parseFen_reads_back_a_written_board starting_board "w KQkq - 0 1" _)).
  split; [reflexivity|]. repeat constructor.
Defined.

Lemma board_highlights_witness :
  In h4 (concat (Chessboard.of_session after_mate true true))
  /\ (Chessboard.isHighlighted h4 = true
      <-> exists move,
            In move (last_two (SessionState.moves after_mate))
            /\ 4 <= String.length (MoveRecord.uci move)
            /\ (Chessboard.id h4 = substring 0 2 (MoveRecord.uci move)
                \/ Chessboard.id h4 = substring 2 2 (MoveRecord.uci move))).
Proof.
  assert (H : In h4 (concat (Chessboard.of_session after_mate true true))).
  { vm_compute. do 39 right. left. reflexivity. }
  split; [exact H|].
  exact (board_highlights_the_last_two_moves after_mate true true h4 H).
Defined.

Lemma other_rejections_witness :
  outcome (submitTurnStream api Wire.parseStreamUpdate "s1" "audio" (inl offline))
  = inl offline.
Proof.
  exact (proj1 (other_rejections_are_passed_on api Wire.parseStreamUpdate
                  "s1" "audio" offline eq_refl)).
Defined.

Lemma response_without_a_stream_witness :
  submitTurnStream api Wire.parseStreamUpdate "s1" "audio" (inr refused)
  = ([SetTimeout timeout_ms;
      Fetch "http://localhost:8000/sessions/s1/turn-stream" "audio";
      ReadJson;
      ClearTimeout],
     inl (JS.Error "Session not found")).
Proof.
  exact (proj1 (response_without_a_stream_is_not_streamed api Wire.parseStreamUpdate
                  "s1" "audio" refused (or_introl eq_refl))).
Defined.

Lemma lines_without_the_marker_witness :
  for_lines Wire.parseStreamUpdate
    [frame_marker ++ transcribing_payload; keepalive; frame_marker ++ complete_payload]
    None
  = for_lines Wire.parseStreamUpdate
      [frame_marker ++ transcribing_payload; frame_marker ++ complete_payload] None.
Proof.
  exact (lines_without_the_marker_are_skipped Wire.parseStreamUpdate
           [frame_marker ++ transcribing_payload] [frame_marker ++ complete_payload]
           keepalive None eq_refl).
Defined.

Lemma refused_reply_witness :
  Api.handleResponse not_found = inl (JS.Error "Session not found").
Proof.
  exact (refused_reply_rejects_with_its_detail not_found eq_refl).
Defined.

Lemma failed_turn_witness :
  App.error (fst (App.handleStopRecording api Wire.parseStreamUpdate unreachable listening))
  = Some "Failed to fetch".
Proof.
  refine (proj1 (failed_turn_shows_the_error_and_keeps_the_session
                   api Wire.parseStreamUpdate unreachable listening "s1" "audio"
                   offline _ _ _));
    reflexivity.
Defined.

Lemma release_without_audio_witness :
  trace (snd (App.handleStopRecording api Wire.parseStreamUpdate silent listening))
  = [RecorderStop].
Proof.
  refine (proj1 (release_without_audio_makes_no_request
                   api Wire.parseStreamUpdate silent listening "s1" _ _));
    reflexivity.
Defined.

Lemma game_over_only_on_a_pattern_witness :
  exists id blob turn updated em,
    App.recording id listening = true
    /\ App.captured mated = Some blob
    /\ outcome (submitTurnStream api Wire.parseStreamUpdate id blob (App.net mated))
       = inr turn
    /\ App.refetch mated = inr updated
    /\ TurnResponse.engine_move turn = Some em
    /\ App.game_over_pattern (Move.san em) = true.
Proof.
  refine (game_over_is_entered_only_on_a_pattern
            api Wire.parseStreamUpdate mated listening _ _);
    vm_compute; reflexivity.
Defined.

Lemma recording_begins_witness :
  App.isRecording (fst (App.handleStartRecording (inr tt) loaded)) = true.
Proof.
  apply (proj2 (recording_begins_only_when_idle_and_granted (inr tt) loaded eq_refl)).
  repeat split.
Defined.


Lemma no_recording_after_game_over_witness :
  orderly (fst (App.run api Wire.parseStreamUpdate
                  [App.KeyDown "Enter" false (inr tt); App.KeyUp "Enter" mated]
                  (fst (App.mount (inr opening))))) = true.
Proof.
  exact (no_recording_after_game_over_without_touch api Wire.parseStreamUpdate
           (inr opening)
           [App.KeyDown "Enter" false (inr tt); App.KeyUp "Enter" mated] eq_refl).
Defined.

Lemma hint_witness :
  record_hint (fst (App.run api Wire.parseStreamUpdate
                      [App.KeyDown "Enter" false (inr tt); App.KeyUp "Enter" mated]
                      (fst (App.mount (inr opening))))) = "Game over".
Proof.
  apply (proj2 (hint_tells_when_the_game_is_over_without_touch
                  api Wire.parseStreamUpdate (inr opening)
                  [App.KeyDown "Enter" false (inr tt); App.KeyUp "Enter" mated]
                  eq_refl)).
  vm_compute. reflexivity.
Defined.

Lemma skill_level_witness :
  App.dispatch api Wire.parseStreamUpdate (App.SlideSkill 12) loaded
  = (App.setSkillLevel 12 loaded, ret tt)
  /\ trace (snd (App.startNewGame (inr opening)
                   (fst (App.dispatch api Wire.parseStreamUpdate
                           (App.SlideSkill 12) loaded))))
     = [CreateSession 12].
Proof.
  exact (skill_level_takes_effect_with_the_next_game api Wire.parseStreamUpdate
           12 (inr opening) loaded eq_refl eq_refl).
Defined.

Lemma stop_hands_over_witness :
  Recorder.stop ["cd"]
    (Recorder.run (map Recorder.Data ["ab"; ""])
       (fst (Recorder.start Recorder.Granted Recorder.initial)))
  = (Recorder.mkState false false [] false None, Some "abcd").
Proof.
  exact (stop_hands_over_what_was_recorded Recorder.initial ["ab"; ""] ["cd"] eq_refl).
Defined.

Lemma failed_start_witness :
  snd (Recorder.start (Recorder.Denied denied) Recorder.initial) = inl denied.
Proof.
  exact (proj1 (failed_start_is_reported (Recorder.Denied denied) denied
                  Recorder.initial eq_refl (or_introl eq_refl))).
Defined.
